(** * Claude CLI wrapper: session registry, line streaming and cleanup

    A shallow embedding of [server/claude-cli-wrapper.js].  The module keeps a
    process-wide [Map] from session ids to session objects, spawns one child
    process per request, forwards every line of its output to a sink and
    removes temporary image files afterwards.

    Conventions of the embedding:
    - a JavaScript string is a [string] (a sequence of 8-bit code units);
    - a value produced by [JSON.parse] is a [json] tree; a number keeps the
      decimal value [m * 10^e] of its literal;
    - [undefined]/[null] for an optional field is [None];
    - an [Error] is represented by its [message];
    - the [Map] is a [gmap] from keys to references into a store of session
      objects, so that two names for one object stay one object;
    - the file system, the clock and the child processes live in a [World]
      that every operation threads through;
    - the event loop runs one callback at a time: each handler is a function
      on the state, and the awaits inside the staging and the cleanup of
      files are run to their end in one step, the calls of a cleanup being
      logged where it is started;
    - the [await] of an abort on its cleanup is a point where the handlers
      of the process may run: the abort is the part before it and the part
      after it;
    - a request is its synchronous start followed by the events of its
      process, delivered one by one; what follows its [await] runs as soon
      as an event has settled the promise;
    - [JSON.parse] and [path.join] belong to the runtime, not to the module:
      they are section variables, and so is whether [process.cwd()] throws
      while the attachments are staged. *)

From Stdlib Require Import ZArith String Ascii.
From stdpp Require Import gmap strings list pretty.

Local Open Scope Z_scope.

(** ** Values read from the child process *)

Unset Elimination Schemes.
Inductive json : Type :=
| JNull
| JBool (b : bool)
| JNumber (m e : Z)
| JString (s : string)
| JArray (items : list json)
| JObject (fields : list (string * json)).
Set Elimination Schemes.

(** Induction that reaches below arrays and objects. *)
Section json_nested_induction.
Variable P : json -> Prop.
Hypothesis Hnull : P JNull.
Hypothesis Hbool : forall b, P (JBool b).
Hypothesis Hnum : forall m e, P (JNumber m e).
Hypothesis Hstr : forall s, P (JString s).
Hypothesis Harr : forall items, Forall P items -> P (JArray items).
Hypothesis Hobj :
  forall fields, Forall (fun kv => P (snd kv)) fields -> P (JObject fields).

Fixpoint json_nested_ind (j : json) : P j :=
  match j with
  | JNull => Hnull
  | JBool b => Hbool b
  | JNumber m e => Hnum m e
  | JString s => Hstr s
  | JArray items =>
      Harr items
        ((fix go (l : list json) : Forall P l :=
            match l with
            | [] => List.Forall_nil _
            | x :: l' => @List.Forall_cons _ P x l' (json_nested_ind x) (go l')
            end) items)
  | JObject fields =>
      Hobj fields
        ((fix go (l : list (string * json)) : Forall (fun kv => P (snd kv)) l :=
            match l with
            | [] => List.Forall_nil _
            | (k, v) :: l' =>
                @List.Forall_cons _ (fun kv => P (snd kv)) (k, v) l'
                  (json_nested_ind v) (go l')
            end) fields)
  end.
End json_nested_induction.

(** Keys of the registry are such values, so they need decidable equality and
    an enumeration; both come from a translation to [gen_tree]. *)
Definition json_atom : Type := bool + (Z * Z) + string.

Fixpoint json_to_tree (j : json) : gen_tree json_atom :=
  match j with
  | JNull => GenNode 0 []
  | JBool b => GenLeaf (inl (inl b))
  | JNumber m e => GenLeaf (inl (inr (m, e)))
  | JString s => GenLeaf (inr s)
  | JArray items => GenNode 1 (map json_to_tree items)
  | JObject fields =>
      GenNode 2 (map (fun kv => match kv with
                                | (k, v) => GenNode 3 [GenLeaf (inr k); json_to_tree v]
                                end) fields)
  end.

Fixpoint tree_to_json (t : gen_tree json_atom) : option json :=
  match t with
  | GenLeaf (inl (inl b)) => Some (JBool b)
  | GenLeaf (inl (inr (m, e))) => Some (JNumber m e)
  | GenLeaf (inr s) => Some (JString s)
  | GenNode 0%nat [] => Some JNull
  | GenNode 1%nat ts => JArray <$> mapM tree_to_json ts
  | GenNode 2%nat ts =>
      JObject <$> mapM (fun t' => match t' with
                                  | GenNode 3%nat [GenLeaf (inr k); tv] =>
                                      pair k <$> tree_to_json tv
                                  | _ => None
                                  end) ts
  | _ => None
  end.

Lemma tree_to_json_to_tree (j : json) : tree_to_json (json_to_tree j) = Some j.
Proof.
  induction j as [| | | |items IH|fields IH] using json_nested_ind;
    simpl; try reflexivity.
  - assert (mapM tree_to_json (map json_to_tree items) = Some items) as ->; [|done].
    induction IH as [|x l Hx _ IHl]; simpl; [done|].
    rewrite Hx. simpl. rewrite IHl. done.
  - match goal with
    | |- JObject <$> ?e = _ => assert (e = Some fields) as ->; [|done]
    end.
    induction IH as [|[k v] l Hx _ IHl]; simpl; [done|].
    simpl in Hx. rewrite Hx. simpl. rewrite IHl. done.
Qed.

#[global] Instance json_eq_dec : EqDecision json.
Proof.
  intros x y.
  destruct (decide (json_to_tree x = json_to_tree y)) as [H|H].
  - left. apply (f_equal tree_to_json) in H.
    rewrite !tree_to_json_to_tree in H. congruence.
  - right. intros ->. done.
Defined.

#[global] Instance json_countable : Countable json :=
  inj_countable json_to_tree tree_to_json tree_to_json_to_tree.

(** ** JavaScript tests on values *)

(** A number literal [m * 10^e] denotes the double [0] when [m] is zero or
    when it is at most half the smallest subnormal, [2^-1075]. *)
Definition number_is_zero (m e : Z) : bool :=
  (m =? 0) || ((e <? 0) && (Z.abs m * 2 ^ 1075 <=? 10 ^ (- e))).

(** [if (v)]: what counts as true. *)
Definition truthy (v : json) : bool :=
  match v with
  | JNull => false
  | JBool b => b
  | JNumber m e => negb (number_is_zero m e)
  | JString "" => false
  | JString _ => true
  | JArray _ => true
  | JObject _ => true
  end.

(** [if (s)] for an optional string: absent and empty are both false. *)
Definition str_truthy (s : option string) : bool :=
  match s with
  | Some (String _ _) => true
  | _ => false
  end.

(** [if (v)] for an optional value. *)
Definition opt_truthy (v : option json) : bool :=
  match v with
  | Some j => truthy j
  | None => false
  end.

(** White space removed by [String.prototype.trim] (code units below 256). *)
Definition is_js_space (c : ascii) : bool :=
  let n := nat_of_ascii c in
  ((9 <=? n) && (n <=? 13) || (n =? 32) || (n =? 160))%nat.

(** [!s.trim()]: nothing is left after trimming. *)
Fixpoint is_blank (s : string) : bool :=
  match s with
  | "" => true
  | String c s' => is_js_space c && is_blank s'
  end.

(** [Array.prototype.join]. *)
Definition join (sep : string) (l : list string) : string := String.concat sep l.

(** [s] occurs inside [t]. *)
Definition contains (t s : string) : Prop :=
  exists pre post, t = pre +:+ s +:+ post.

(** ** Request options *)

Record ToolsSettings := {
  allowedTools : option (list string);
  disallowedTools : option (list string)
}.

(** An attachment; [data] is [None] when the field is missing or is not a
    string, in which case [image.data.match] throws. *)
Record Image := { data : option string }.

Record Options := {
  sessionId : option string;
  cwd : option string;
  model : option string;
  images : option (list Image);
  toolsSettings : option ToolsSettings
}.

(** ** buildCliArgs *)

(** [options.toolsSettings?.<field>?.length > 0], giving the list when so. *)
Definition tools_list (o : Options) (field : ToolsSettings -> option (list string))
  : option (list string) :=
  match toolsSettings o with
  | Some ts =>
      match field ts with
      | Some (x :: l) => Some (x :: l)
      | _ => None
      end
  | None => None
  end.

Definition buildCliArgs (command : string) (o : Options) : list string :=
  let args := ["--print"; "--output-format"; "stream-json"] in
  let args :=
    if str_truthy (sessionId o)
    then args ++ ["--resume"; default "" (sessionId o)]
    else args in
  let args :=
    match tools_list o allowedTools with
    | Some l => args ++ ["--allowedTools"; join "," l]
    | None => args
    end in
  let args :=
    match tools_list o disallowedTools with
    | Some l => args ++ ["--disallowedTools"; join "," l]
    | None => args
    end in
  let args :=
    if str_truthy (model o)
    then args ++ ["--model"; default "" (model o)]
    else args in
  args ++ [command].

(** ** Strings of the attachment stage *)

Definition newline : string := String "010"%char "".

(** [s] with the prefix [p] taken off, when it starts with [p]. *)
Fixpoint strip_prefix (p s : string) : option string :=
  match p, s with
  | "", _ => Some s
  | String a p', String b s' => if Ascii.eqb a b then strip_prefix p' s' else None
  | String _ _, "" => None
  end.

(** The longest front of [s] without [c], and the rest. *)
Fixpoint span_not (c : ascii) (s : string) : string * string :=
  match s with
  | "" => ("", "")
  | String a s' =>
      if Ascii.eqb a c then ("", s)
      else let '(u, v) := span_not c s' in (String a u, v)
  end.

(** A line terminator, which [.] of a regular expression does not match. *)
Fixpoint has_line_break (s : string) : bool :=
  match s with
  | "" => false
  | String a s' =>
      (nat_of_ascii a =? 10)%nat || (nat_of_ascii a =? 13)%nat || has_line_break s'
  end.

(** [s.match(/^data:([^;]+);base64,(.+)$/)]: the two groups, or no match.
    The first group cannot hold a [;], so it ends at the first one. *)
Definition match_data_uri (s : string) : option (string * string) :=
  match strip_prefix "data:" s with
  | Some rest =>
      let '(mimeType, tl) := span_not ";" rest in
      match mimeType, strip_prefix ";base64," tl with
      | String _ _, Some (String c p) =>
          if has_line_break (String c p) then None
          else Some (mimeType, String c p)
      | _, _ => None
      end
  | None => None
  end.

(** [s.split(sep)] for a one-character separator. *)
Fixpoint split_on (sep : ascii) (s : string) : list string :=
  match s with
  | "" => [""]
  | String a s' =>
      if Ascii.eqb a sep then "" :: split_on sep s'
      else match split_on sep s' with
           | h :: t => String a h :: t
           | [] => [String a ""]
           end
  end.

(** [mimeType.split('/')[1] || 'png']. *)
Definition extension_of (mimeType : string) : string :=
  match split_on "/" mimeType !! 1%nat with
  | Some (String c e) => String c e
  | _ => "png"
  end.

(** The note appended to the prompt. *)
Definition imageNote (paths : list string) : string :=
  newline +:+ newline +:+ "[Images provided at the following paths:]" +:+ newline
  +:+ join newline (imap (fun i p => pretty (S i) +:+ ". " +:+ p) paths).

(** ** The world outside the module *)

Inductive fs_call :=
| FsMkdir (p : string)
| FsWriteFile (p payload : string)
| FsUnlink (p : string)
| FsRm (p : string).

#[global] Instance fs_call_eq_dec : EqDecision fs_call.
Proof. solve_decision. Defined.

(** The disk: regular files with their payload, directories, the paths on
    which every change is refused, and the calls made so far. *)
Record Disk := {
  files : list (string * string);
  dirs : list string;
  denied : string -> bool;
  fs_calls : list fs_call
}.

(** [q] is [p] or lies below it, as path strings go.  The file system
    resolves paths, so what is under [p] by this test is under it on the
    disk, but a path spelled otherwise (a trailing slash, a [.] segment, a
    link) may be under [p] as well: the statements conclude from it that
    something is removed, never that something is kept. *)
Definition under (p q : string) : bool :=
  String.eqb q p || String.prefix (p +:+ "/") q.

(** [fs.mkdir(p, { recursive: true })]; [false] is a rejected promise. *)
Definition mkdir (p : string) (d : Disk) : Disk * bool :=
  let calls := fs_calls d ++ [FsMkdir p] in
  if denied d p
  then ({| files := files d; dirs := dirs d; denied := denied d; fs_calls := calls |},
        false)
  else ({| files := files d;
           dirs := if bool_decide (p ∈ dirs d) then dirs d else dirs d ++ [p];
           denied := denied d; fs_calls := calls |},
        true).

(** [fs.writeFile(p, Buffer.from(payload, 'base64'))]; the file is recorded
    with the base64 text it was made from. *)
Definition writeFile (p payload : string) (d : Disk) : Disk * bool :=
  let calls := fs_calls d ++ [FsWriteFile p payload] in
  if denied d p
  then ({| files := files d; dirs := dirs d; denied := denied d; fs_calls := calls |},
        false)
  else ({| files := filter (fun f => f.1 ≠ p) (files d) ++ [(p, payload)];
           dirs := dirs d; denied := denied d; fs_calls := calls |},
        true).

(** [fs.unlink(p).catch(() => {})]: the file of that name goes if it is
    there and may go. *)
Definition unlink (p : string) (d : Disk) : Disk :=
  {| files := if denied d p then files d else filter (fun f => f.1 ≠ p) (files d);
     dirs := dirs d;
     denied := denied d;
     fs_calls := fs_calls d ++ [FsUnlink p] |}.

(** [fs.rm(p, { recursive: true, force: true }).catch(() => {})]: what is
    at or below [p] by its name goes; the call on the disk removes at least
    that. *)
Definition rm (p : string) (d : Disk) : Disk :=
  {| files := if denied d p then files d
              else filter (fun f => negb (under p f.1)) (files d);
     dirs := if denied d p then dirs d
             else filter (fun q => negb (under p q)) (dirs d);
     denied := denied d;
     fs_calls := fs_calls d ++ [FsRm p] |}.

(** ** cleanupTempFiles *)

(** The awaits inside are run to their end in one step.  Nothing in the body
    can throw, so the [catch] of the source has no case here and the result
    is the disk alone. *)
Definition cleanupTempFiles
  (tempImagePaths : option (list string)) (tempDir : option string) (d : Disk) : Disk :=
  match tempImagePaths with
  | None | Some [] => d
  | Some paths =>
      let d := foldl (fun d imagePath => unlink imagePath d) d paths in
      if str_truthy tempDir then rm (default "" tempDir) d else d
  end.

(** ** Child processes, session objects and the registry *)

Inductive signal := SIGTERM | SIGKILL.

(** A child process object: how it was spawned, its [killed] flag, whether
    the process has ended, and the signals delivered to it. *)
Record Child := {
  spawn_args : list string;
  spawn_cwd : string;
  killed : bool;
  ended : bool;
  signals : list signal
}.

(** [child.kill(sig)]: the signal is delivered, and [killed] set, unless the
    process has ended already. *)
Definition kill (sig : signal) (c : Child) : Child :=
  if ended c then c
  else {| spawn_args := spawn_args c; spawn_cwd := spawn_cwd c;
          killed := true; ended := ended c; signals := signals c ++ [sig] |}.

(** The operating system ends the process behind a child object. *)
Definition child_exits (c : Child) : Child :=
  {| spawn_args := spawn_args c; spawn_cwd := spawn_cwd c;
     killed := killed c; ended := true; signals := signals c |}.

(** [session.status], which is ['active'] or ['aborted']. *)
Inductive Status := active | aborted.

#[global] Instance Status_eq_dec : EqDecision Status.
Proof. solve_decision. Defined.

Module Session.
Record t := {
  process : nat;
  startTime : Z;
  status : Status;
  tempImagePaths : list string;
  tempDir : option string
}.

Definition with_status (s : Status) (o : t) : t :=
  {| process := process o; startTime := startTime o; status := s;
     tempImagePaths := tempImagePaths o; tempDir := tempDir o |}.
End Session.

(** [activeSessions] binds a key to a reference into [store]; [children]
    holds the process objects; [timers] the children whose forced kill is
    scheduled; [clock] gives the value of each successive [Date.now()]. *)
Record World := {
  activeSessions : gmap json nat;
  store : list Session.t;
  children : list Child;
  timers : list nat;
  disk : Disk;
  clock : nat -> Z;
  clock_reads : nat;
  process_cwd : string
}.

Definition with_activeSessions (m : gmap json nat) (w : World) : World :=
  {| activeSessions := m; store := store w; children := children w;
     timers := timers w; disk := disk w; clock := clock w;
     clock_reads := clock_reads w; process_cwd := process_cwd w |}.

Definition with_store (s : list Session.t) (w : World) : World :=
  {| activeSessions := activeSessions w; store := s; children := children w;
     timers := timers w; disk := disk w; clock := clock w;
     clock_reads := clock_reads w; process_cwd := process_cwd w |}.

Definition with_children (c : list Child) (w : World) : World :=
  {| activeSessions := activeSessions w; store := store w; children := c;
     timers := timers w; disk := disk w; clock := clock w;
     clock_reads := clock_reads w; process_cwd := process_cwd w |}.

Definition with_timers (t : list nat) (w : World) : World :=
  {| activeSessions := activeSessions w; store := store w; children := children w;
     timers := t; disk := disk w; clock := clock w;
     clock_reads := clock_reads w; process_cwd := process_cwd w |}.

Definition with_disk (d : Disk) (w : World) : World :=
  {| activeSessions := activeSessions w; store := store w; children := children w;
     timers := timers w; disk := d; clock := clock w;
     clock_reads := clock_reads w; process_cwd := process_cwd w |}.

(** [Date.now()]. *)
Definition Date_now (w : World) : Z * World :=
  (clock w (clock_reads w),
   {| activeSessions := activeSessions w; store := store w; children := children w;
      timers := timers w; disk := disk w; clock := clock w;
      clock_reads := S (clock_reads w); process_cwd := process_cwd w |}).

(** [activeSessions.get(key)]: the reference and the object behind it. *)
Definition get_session (key : json) (w : World) : option (nat * Session.t) :=
  match activeSessions w !! key with
  | Some ref =>
      match store w !! ref with
      | Some session => Some (ref, session)
      | None => None
      end
  | None => None
  end.

(** ** The sink *)

(** What [ws.send] is given, before [JSON.stringify]. *)
Inductive event :=
| SessionCreated (id : json)
| ClaudeResponse (data : json)
| ClaudeComplete (id : option json) (exitCode : Z) (isNewSession : bool)
| ClaudeError (error : string).

(** The sink records what it was sent and the ids it was bound to; it may
    come without a [setSessionId] function. *)
Record Sink := {
  has_setSessionId : bool;
  sent : list event;
  bound : list json
}.

Definition send (e : event) (ws : Sink) : Sink :=
  {| has_setSessionId := has_setSessionId ws; sent := sent ws ++ [e];
     bound := bound ws |}.

(** [if (ws.setSessionId && typeof ws.setSessionId === 'function')
    ws.setSessionId(id)]. *)
Definition setSessionId (id : json) (ws : Sink) : Sink :=
  if has_setSessionId ws
  then {| has_setSessionId := true; sent := sent ws; bound := bound ws ++ [id] |}
  else ws.

Definition is_session_created (e : event) : bool :=
  match e with
  | SessionCreated _ => true
  | _ => false
  end.

(** ** The state of one request *)

(** The promise awaited by the request, and how the request itself ended. *)
Inductive Promise := Pending | Fulfilled | Rejected (message : string).
Inductive Completion := Running | Returned | Threw (message : string).

Module Query.
(** The variables closed over by the handlers of one [queryClaudeSDK] call.
    [processSessionId] and [claudeProcess] are [None] until the process is
    spawned and registered. *)
Record t := {
  command : string;
  options : Options;
  ws : Sink;
  capturedSessionId : option json;
  sessionCreatedSent : bool;
  tempImagePaths : list string;
  tempDir : option string;
  processSessionId : option json;
  claudeProcess : option nat;
  stderrBuffer : string;
  settled : Promise;
  result : Completion
}.

Definition with_ws (s : Sink) (q : t) : t :=
  {| command := command q; options := options q; ws := s;
     capturedSessionId := capturedSessionId q;
     sessionCreatedSent := sessionCreatedSent q;
     tempImagePaths := tempImagePaths q; tempDir := tempDir q;
     processSessionId := processSessionId q; claudeProcess := claudeProcess q;
     stderrBuffer := stderrBuffer q; settled := settled q; result := result q |}.

Definition with_capturedSessionId (c : option json) (q : t) : t :=
  {| command := command q; options := options q; ws := ws q;
     capturedSessionId := c;
     sessionCreatedSent := sessionCreatedSent q;
     tempImagePaths := tempImagePaths q; tempDir := tempDir q;
     processSessionId := processSessionId q; claudeProcess := claudeProcess q;
     stderrBuffer := stderrBuffer q; settled := settled q; result := result q |}.

Definition with_sessionCreatedSent (b : bool) (q : t) : t :=
  {| command := command q; options := options q; ws := ws q;
     capturedSessionId := capturedSessionId q;
     sessionCreatedSent := b;
     tempImagePaths := tempImagePaths q; tempDir := tempDir q;
     processSessionId := processSessionId q; claudeProcess := claudeProcess q;
     stderrBuffer := stderrBuffer q; settled := settled q; result := result q |}.

Definition with_stderrBuffer (s : string) (q : t) : t :=
  {| command := command q; options := options q; ws := ws q;
     capturedSessionId := capturedSessionId q;
     sessionCreatedSent := sessionCreatedSent q;
     tempImagePaths := tempImagePaths q; tempDir := tempDir q;
     processSessionId := processSessionId q; claudeProcess := claudeProcess q;
     stderrBuffer := s; settled := settled q; result := result q |}.

Definition with_settled (p : Promise) (q : t) : t :=
  {| command := command q; options := options q; ws := ws q;
     capturedSessionId := capturedSessionId q;
     sessionCreatedSent := sessionCreatedSent q;
     tempImagePaths := tempImagePaths q; tempDir := tempDir q;
     processSessionId := processSessionId q; claudeProcess := claudeProcess q;
     stderrBuffer := stderrBuffer q; settled := p; result := result q |}.

Definition with_result (c : Completion) (q : t) : t :=
  {| command := command q; options := options q; ws := ws q;
     capturedSessionId := capturedSessionId q;
     sessionCreatedSent := sessionCreatedSent q;
     tempImagePaths := tempImagePaths q; tempDir := tempDir q;
     processSessionId := processSessionId q; claudeProcess := claudeProcess q;
     stderrBuffer := stderrBuffer q; settled := settled q; result := c |}.
End Query.

(** [resolve()] and [reject(e)] act on a pending promise only. *)
Definition settle (p : Promise) (q : Query.t) : Query.t :=
  match Query.settled q with
  | Pending => Query.with_settled p q
  | _ => q
  end.

Module Staged.
(** What [handleImages] returns. *)
Record t := {
  modifiedCommand : string;
  tempImagePaths : list string;
  tempDir : option string
}.
End Staged.

(** What the child process lets the request see. *)
Inductive proc_event :=
| Line (line : string)
| Stderr (data : string)
| Close (code : option Z)
| ProcError (message : string).

(** [`${code}`] for an exit code, which is [null] when a signal ended the
    process. *)
Definition show_code (code : option Z) : string :=
  match code with
  | Some z => pretty z
  | None => "null"
  end.

(** The message wrapped around a line that is not JSON. *)
Definition text_message (line : string) : json :=
  JObject [("type", JString "assistant");
           ("content", JArray [JObject [("type", JString "text");
                                        ("text", JString line)]])].

(** [obj[name]] on the fields of a parsed object; when a key was repeated
    in the text the last one counts. *)
Fixpoint get_property (name : string) (fields : list (string * json)) : option json :=
  match fields with
  | [] => None
  | (k, v) :: rest =>
      match get_property name rest with
      | Some v' => Some v'
      | None => if String.eqb k name then Some v else None
      end
  end.

(** [message.session_id]: [None] when reading the property throws (on
    [null]), [Some None] when it is [undefined]. *)
Definition session_id_of (message : json) : option (option json) :=
  match message with
  | JNull => None
  | JObject fields => Some (get_property "session_id" fields)
  | _ => Some None
  end.

Section Wrapper.

(** The runtime: [JSON.parse] ([None] for a syntax error) and [path.join];
    and whether the call of [process.cwd()] made while the attachments are
    staged throws, as it does when the working directory of the server is
    gone. *)
Variable JSON_parse : string -> option json.
Variable path_join : list string -> string.
Variable cwd_throws : bool.

(** ** handleImages *)

(** The loop over [images.entries()].  The result tells whether the loop ran
    to its end ([true]) or an error was thrown ([false]), with the paths
    pushed until then. *)
Fixpoint write_images (tempDir : string) (index : nat) (imgs : list Image)
  (tempImagePaths : list string) (d : Disk) : Disk * list string * bool :=
  match imgs with
  | [] => (d, tempImagePaths, true)
  | image :: rest =>
      match data image with
      | None => (d, tempImagePaths, false)
      | Some uri =>
          match match_data_uri uri with
          | None => write_images tempDir (S index) rest tempImagePaths d
          | Some (mimeType, base64Data) =>
              let extension := extension_of mimeType in
              let filename := "image_" +:+ pretty index +:+ "." +:+ extension in
              let filepath := path_join [tempDir; filename] in
              match writeFile filepath base64Data d with
              | (d, true) =>
                  write_images tempDir (S index) rest (tempImagePaths ++ [filepath]) d
              | (d, false) => (d, tempImagePaths, false)
              end
          end
      end
  end.

(** The [try] block: the paths and directory as the block left them, and
    the modified command when no error was thrown.  [process.cwd()] is
    called only when the caller names no directory; when it throws,
    [tempDir] has not been assigned yet and nothing has been done.
    [path.join] throws on an argument that is not a string only, which the
    options of this model cannot hold. *)
Definition handleImages_try (command : string) (imgs : list Image)
  (cwd : option string) (w : World)
  : World * list string * option string * option string :=
  if negb (str_truthy cwd) && cwd_throws then (w, [], None, None) else
  let workingDir := if str_truthy cwd then default "" cwd else process_cwd w in
  let '(now, w) := Date_now w in
  let tempDir := path_join [workingDir; ".tmp"; "images"; pretty now] in
  match mkdir tempDir (disk w) with
  | (d, false) => (with_disk d w, [], Some tempDir, None)
  | (d, true) =>
      match write_images tempDir 0 imgs [] d with
      | (d, tempImagePaths, false) =>
          (with_disk d w, tempImagePaths, Some tempDir, None)
      | (d, tempImagePaths, true) =>
          let modifiedCommand :=
            match tempImagePaths with
            | _ :: _ =>
                if negb (is_blank command)
                then command +:+ imageNote tempImagePaths
                else command
            | [] => command
            end in
          (with_disk d w, tempImagePaths, Some tempDir, Some modifiedCommand)
      end
  end.

Definition handleImages (command : string) (images : option (list Image))
  (cwd : option string) (w : World) : World * Staged.t :=
  match images with
  | None | Some [] =>
      (w, {| Staged.modifiedCommand := command; Staged.tempImagePaths := [];
             Staged.tempDir := None |})
  | Some imgs =>
      match handleImages_try command imgs cwd w with
      | (w, tempImagePaths, tempDir, Some modifiedCommand) =>
          (w, {| Staged.modifiedCommand := modifiedCommand;
                 Staged.tempImagePaths := tempImagePaths;
                 Staged.tempDir := tempDir |})
      | (w, tempImagePaths, tempDir, None) =>
          (w, {| Staged.modifiedCommand := command;
                 Staged.tempImagePaths := tempImagePaths;
                 Staged.tempDir := tempDir |})
      end
  end.

(** ** queryClaudeSDK *)

(** [cleanupTempFiles(tempImagePaths, tempDir)] of a request. *)
Definition cleanup_request (q : Query.t) (w : World) : World :=
  with_disk (cleanupTempFiles (Some (Query.tempImagePaths q)) (Query.tempDir q) (disk w)) w.

(** The [catch] block of the request. *)
Definition catch_path (message : string) (st : World * Query.t) : World * Query.t :=
  let '(w, q) := st in
  let w :=
    match Query.capturedSessionId q with
    | Some id =>
        if truthy id then with_activeSessions (delete id (activeSessions w)) w else w
    | None => w
    end in
  let w := cleanup_request q w in
  let q := Query.with_ws (send (ClaudeError message) (Query.ws q)) q in
  (w, Query.with_result (Threw message) q).

(** What follows the [await] once the process has closed with code 0. *)
Definition success_path (st : World * Query.t) : World * Query.t :=
  let '(w, q) := st in
  let w := cleanup_request q w in
  let q :=
    Query.with_ws
      (send (ClaudeComplete (Query.capturedSessionId q) 0
               (negb (str_truthy (sessionId (Query.options q)))
                && negb (String.eqb (Query.command q) "")))
            (Query.ws q)) q in
  (w, Query.with_result Returned q).

(** Everything up to the [await]: staging, arguments, spawn, registration.
    [spawn_throws] is the error the statement that spawns the process throws
    at once, if it does: an error of [spawn] itself or of [process.cwd()]
    among its options. *)
Definition queryClaudeSDK_begin (command : string) (options : Options) (ws : Sink)
  (spawn_throws : option string) (w : World) : World * Query.t :=
  let capturedSessionId := JString <$> sessionId options in
  let '(w, imageResult) := handleImages command (images options) (cwd options) w in
  let finalCommand := Staged.modifiedCommand imageResult in
  let tempImagePaths := Staged.tempImagePaths imageResult in
  let tempDir := Staged.tempDir imageResult in
  let args := buildCliArgs finalCommand options in
  let q :=
    {| Query.command := command; Query.options := options; Query.ws := ws;
       Query.capturedSessionId := capturedSessionId;
       Query.sessionCreatedSent := false;
       Query.tempImagePaths := tempImagePaths; Query.tempDir := tempDir;
       Query.processSessionId := None; Query.claudeProcess := None;
       Query.stderrBuffer := ""; Query.settled := Pending;
       Query.result := Running |} in
  match spawn_throws with
  | Some message => catch_path message (w, q)
  | None =>
      let claudeProcess := length (children w) in
      let w :=
        with_children
          (children w ++
             [{| spawn_args := args;
                 spawn_cwd := if str_truthy (cwd options)
                              then default "" (cwd options) else process_cwd w;
                 killed := false; ended := false; signals := [] |}]) w in
      let '(processSessionId, w) :=
        match capturedSessionId with
        | Some id =>
            if truthy id then (id, w)
            else let '(now, w) := Date_now w in (JString ("pending_" +:+ pretty now), w)
        | None =>
            let '(now, w) := Date_now w in (JString ("pending_" +:+ pretty now), w)
        end in
      let '(now, w) := Date_now w in
      let ref := length (store w) in
      let w :=
        with_store
          (store w ++
             [{| Session.process := claudeProcess; Session.startTime := now;
                 Session.status := active;
                 Session.tempImagePaths := tempImagePaths;
                 Session.tempDir := tempDir |}]) w in
      let w := with_activeSessions (<[processSessionId := ref]> (activeSessions w)) w in
      (w,
       {| Query.command := command; Query.options := options; Query.ws := ws;
          Query.capturedSessionId := capturedSessionId;
          Query.sessionCreatedSent := false;
          Query.tempImagePaths := tempImagePaths; Query.tempDir := tempDir;
          Query.processSessionId := Some processSessionId;
          Query.claudeProcess := Some claudeProcess;
          Query.stderrBuffer := ""; Query.settled := Pending;
          Query.result := Running |})
  end.

(** The registry after [delete(processSessionId)] and then after
    [set(capturedSessionId, session)], in the order they happen. *)
Definition rekey_steps (processSessionId id : json) (m : gmap json nat)
  : list (gmap json nat) :=
  match m !! processSessionId with
  | Some session =>
      [delete processSessionId m; <[id := session]> (delete processSessionId m)]
  | None => []
  end.

(** The registry once the captured id has taken the place of the first key. *)
Definition rekey (processSessionId id : json) (m : gmap json nat) : gmap json nat :=
  default m (last (rekey_steps processSessionId id m)).

(** The [catch (parseError)] branch of the line handler. *)
Definition send_text (line : string) (q : Query.t) : Query.t :=
  Query.with_ws (send (ClaudeResponse (text_message line)) (Query.ws q)) q.

(** The ['line'] handler. *)
Definition on_line (line : string) (st : World * Query.t) : World * Query.t :=
  let '(w, q) := st in
  if is_blank line then st
  else
    match JSON_parse line with
    | None => (w, send_text line q)
    | Some message =>
        match session_id_of message with
        | None => (w, send_text line q)
        | Some session_id =>
            let '(w, q) :=
              if opt_truthy session_id && negb (opt_truthy (Query.capturedSessionId q))
              then
                let id := default JNull session_id in
                let q := Query.with_capturedSessionId (Some id) q in
                let w :=
                  match Query.processSessionId q with
                  | Some p => with_activeSessions (rekey p id (activeSessions w)) w
                  | None => w
                  end in
                let q := Query.with_ws (setSessionId id (Query.ws q)) q in
                if negb (str_truthy (sessionId (Query.options q)))
                   && negb (Query.sessionCreatedSent q)
                then
                  let q := Query.with_sessionCreatedSent true q in
                  (w, Query.with_ws (send (SessionCreated id) (Query.ws q)) q)
                else (w, q)
              else (w, q) in
            (w, Query.with_ws (send (ClaudeResponse message) (Query.ws q)) q)
        end
    end.

(** The ['data'] handler of the error stream. *)
Definition on_stderr (chunk : string) (st : World * Query.t) : World * Query.t :=
  let '(w, q) := st in
  (w, Query.with_stderrBuffer (Query.stderrBuffer q +:+ chunk) q).

(** The ['close'] handler. *)
Definition on_close (code : option Z) (st : World * Query.t) : World * Query.t :=
  let '(w, q) := st in
  let key :=
    if opt_truthy (Query.capturedSessionId q)
    then Query.capturedSessionId q
    else Query.processSessionId q in
  let w :=
    match key with
    | Some k => with_activeSessions (delete k (activeSessions w)) w
    | None => w
    end in
  match code with
  | Some 0 => (w, settle Fulfilled q)
  | _ =>
      (w, settle (Rejected ("Claude exited with code " +:+ show_code code +:+ ": "
                            +:+ Query.stderrBuffer q)) q)
  end.

(** The ['error'] handler. *)
Definition on_error (message : string) (st : World * Query.t) : World * Query.t :=
  let '(w, q) := st in
  (w, settle (Rejected message) q).

(** The request goes on after its [await] as soon as the promise is
    settled, and does so once. *)
Definition resume (st : World * Query.t) : World * Query.t :=
  let '(w, q) := st in
  match Query.result q, Query.settled q with
  | Running, Fulfilled => success_path st
  | Running, Rejected message => catch_path message st
  | _, _ => st
  end.

(** One event of the child process reaches its handler; a request whose
    spawn threw has no process and no handlers. *)
Definition deliver (st : World * Query.t) (ev : proc_event) : World * Query.t :=
  match Query.claudeProcess (snd st) with
  | None => st
  | Some _ =>
      resume
        match ev with
        | Line line => on_line line st
        | Stderr chunk => on_stderr chunk st
        | Close code => on_close code st
        | ProcError message => on_error message st
        end
  end.

(** A whole request: its synchronous start, then the events of its process
    in the order they arrive. *)
Definition queryClaudeSDK (command : string) (options : Options) (ws : Sink)
  (spawn_throws : option string) (events : list proc_event) (w : World)
  : World * Query.t :=
  foldl deliver (queryClaudeSDK_begin command options ws spawn_throws w) events.

(** ** abortClaudeSDKSession *)

(** The callback given to [setTimeout]: a second, forced kill. *)
Definition force_kill (pid : nat) (w : World) : World :=
  match children w !! pid with
  | Some c =>
      if killed c then w
      else with_children (<[pid := kill SIGKILL c]> (children w)) w
  | None => w
  end.

(** [abortClaudeSDKSession] once its session is found, up to its [await]:
    the signal and the timer, the status, and the call of
    [cleanupTempFiles].  The calls of this cleanup are logged here, where
    it is started.  When the cleanup of the request itself runs during the
    [await], the order in which the calls of the two reach the disk is not
    modelled: what is said of such runs does not depend on it.  With the
    process objects of this model [kill] does not throw, so the [catch] of
    the source has no case here. *)
Definition abort_until_await (ref : nat) (session : Session.t) (w : World) : World :=
  let w :=
    match children w !! Session.process session with
    | Some c =>
        if killed c then w
        else
          with_timers (timers w ++ [Session.process session])
            (with_children
               (<[Session.process session := kill SIGTERM c]> (children w)) w)
    | None => w
    end in
  let w := with_store (<[ref := Session.with_status aborted session]> (store w)) w in
  with_disk
    (cleanupTempFiles (Some (Session.tempImagePaths session))
       (Session.tempDir session) (disk w)) w.

(** What follows the [await]: the key is removed from the registry as it
    is by then, other handlers having run or not in the meantime. *)
Definition abort_after_await (id : json) (w : World) : World :=
  with_activeSessions (delete id (activeSessions w)) w.

(** The whole call, for the run in which no other handler runs during the
    [await]. *)
Definition abortClaudeSDKSession (id : json) (w : World) : World * bool :=
  match get_session id w with
  | None => (w, false)
  | Some (ref, session) =>
      (abort_after_await id (abort_until_await ref session w), true)
  end.

(** [session && session.status === 'active']. *)
Definition isClaudeSDKSessionActive (id : json) (w : World) : bool :=
  match get_session id w with
  | Some (_, session) => bool_decide (Session.status session = active)
  | None => false
  end.

End Wrapper.

(** * Vocabulary of the statements *)

(** The flag/value pairs between the three leading flags and the prompt. *)
Fixpoint pairs_of (l : list string) : list (string * string) :=
  match l with
  | a :: b :: rest => (a, b) :: pairs_of rest
  | _ => []
  end.

Definition cli_options (args : list string) : list (string * string) :=
  pairs_of (removelast (drop 3 args)).

Definition unpair (ps : list (string * string)) : list string :=
  ps ≫= (fun p => [p.1; p.2]).

(** The optional pairs in the order [buildCliArgs] pushes them. *)
Definition pushed_options (o : Options) : list (string * string) :=
  (if str_truthy (sessionId o) then [("--resume", default "" (sessionId o))] else [])
  ++ match tools_list o allowedTools with
     | Some l => [("--allowedTools", join "," l)]
     | None => []
     end
  ++ match tools_list o disallowedTools with
     | Some l => [("--disallowedTools", join "," l)]
     | None => []
     end
  ++ (if str_truthy (model o) then [("--model", default "" (model o))] else []).

(** Output of the process, as opposed to its end. *)
Definition is_output (ev : proc_event) : Prop :=
  match ev with
  | Line _ | Stderr _ => True
  | Close _ | ProcError _ => False
  end.

(** All the text the process wrote on its error stream. *)
Fixpoint stderr_text (events : list proc_event) : string :=
  match events with
  | [] => ""
  | Stderr chunk :: rest => chunk +:+ stderr_text rest
  | _ :: rest => stderr_text rest
  end.

(** The calls one effective run of [cleanupTempFiles] makes. *)
Definition cleanup_calls (paths : list string) (dir : option string) : list fs_call :=
  match paths with
  | [] => []
  | _ => (FsUnlink <$> paths) ++ (if str_truthy dir then [FsRm (default "" dir)] else [])
  end.

(** How many [session-created] events a list holds. *)
Definition count_session_created (l : list event) : nat :=
  length (filter (fun e => is_session_created e = true) l).

(** The files and directories of a disk, without the log of calls. *)
Definition contents (d : Disk) : list (string * string) * list string :=
  (files d, dirs d).

(** The key under which a request expects its registry entry. *)
Definition registry_key (q : Query.t) : option json :=
  if opt_truthy (Query.capturedSessionId q)
  then Query.capturedSessionId q
  else Query.processSessionId q.

(** What [cleanupTempFiles paths dir] leaves of a name on a disk that
    refuses changes on [dn]: [spared_by_rm] for the directory alone,
    [spared] for the paths and the directory. *)
Definition spared_by_rm (dn : string -> bool) (dir : option string) (name : string)
  : bool :=
  negb (str_truthy dir) || dn (default "" dir) || negb (under (default "" dir) name).

Definition spared (dn : string -> bool) (paths : list string) (dir : option string)
  (name : string) : bool :=
  forallb (fun p => dn p || negb (String.eqb name p)) paths
  && spared_by_rm dn dir name.

(** The fields of a request that no handler writes. *)
Definition same_request (q q' : Query.t) : Prop :=
  Query.command q' = Query.command q
  /\ Query.options q' = Query.options q
  /\ Query.tempImagePaths q' = Query.tempImagePaths q
  /\ Query.tempDir q' = Query.tempDir q
  /\ Query.processSessionId q' = Query.processSessionId q
  /\ Query.claudeProcess q' = Query.claudeProcess q
  /\ has_setSessionId (Query.ws q') = has_setSessionId (Query.ws q).

(** A request waiting for its process: spawned, promise pending. *)
Definition waiting (q : Query.t) : Prop :=
  Query.result q = Running
  /\ Query.settled q = Pending
  /\ is_Some (Query.claudeProcess q).

(** The request as [queryClaudeSDK_begin] leaves it once the process is
    spawned and registered under [key]. *)
Definition started (command : string) (options : Options) (ws : Sink)
  (staged : Staged.t) (key : json) (pid : nat) : Query.t :=
  {| Query.command := command; Query.options := options; Query.ws := ws;
     Query.capturedSessionId := JString <$> sessionId options;
     Query.sessionCreatedSent := false;
     Query.tempImagePaths := Staged.tempImagePaths staged;
     Query.tempDir := Staged.tempDir staged;
     Query.processSessionId := Some key;
     Query.claudeProcess := Some pid;
     Query.stderrBuffer := ""; Query.settled := Pending;
     Query.result := Running |}.

(** How many [session-created] events the sink of a request has seen. *)
Definition created (q : Query.t) : nat :=
  count_session_created (sent (Query.ws q)).

(** In a registry, [session] is bound under at most one key. *)
Definition one_key (session : nat) (m : gmap json nat) : Prop :=
  forall k1 k2, m !! k1 = Some session -> m !! k2 = Some session -> k1 = k2.

(** What a request resumed under [id] may send: no [session-created], and
    completions that carry [id] and are not new sessions. *)
Definition resumed_event (id : json) (e : event) : Prop :=
  match e with
  | SessionCreated _ => False
  | ClaudeComplete k _ isNewSession => k = Some id /\ isNewSession = false
  | ClaudeResponse _ | ClaudeError _ => True
  end.

(** The registry differs from [m] at most by the removal of [k]. *)
Definition at_most_removed (k : json) (m m' : gmap json nat) : Prop :=
  m' = m \/ m' = delete k m.

(** ** Vocabulary of the further properties *)

(** [c] occurs in [s]. *)
Fixpoint has_char (c : ascii) (s : string) : bool :=
  match s with
  | "" => false
  | String a s' => Ascii.eqb a c || has_char c s'
  end.

(** The file names [handleImages] gives to the attachments whose data match
    the pattern, the first attachment having position [index]. *)
Fixpoint staged_names (index : nat) (imgs : list Image) : list string :=
  match imgs with
  | [] => []
  | image :: rest =>
      match data image ≫= match_data_uri with
      | Some (mimeType, _) =>
          ("image_" +:+ pretty index +:+ "." +:+ extension_of mimeType)
          :: staged_names (S index) rest
      | None => staged_names (S index) rest
      end
  end.

(** What the line handler passes on for a line that is not blank: the
    record read in it, or the line wrapped as text when it is not JSON or
    is [null]. *)
Definition forwarded_line (parse : string -> option json) (line : string) : json :=
  match parse line with
  | Some JNull | None => text_message line
  | Some message => message
  end.

(** The payloads passed on for the lines among [events], in order. *)
Fixpoint forwarded (parse : string -> option json) (events : list proc_event)
  : list json :=
  match events with
  | [] => []
  | Line line :: rest =>
      if is_blank line then forwarded parse rest
      else forwarded_line parse line :: forwarded parse rest
  | _ :: rest => forwarded parse rest
  end.

(** The payloads of the [claude-response] events of a list, in order. *)
Definition responses (l : list event) : list json :=
  omap (fun e => match e with ClaudeResponse d => Some d | _ => None end) l.

(** The events that end a request, and those of a list. *)
Definition is_terminal (e : event) : bool :=
  match e with
  | ClaudeComplete _ _ _ | ClaudeError _ => true
  | SessionCreated _ | ClaudeResponse _ => false
  end.

Definition terminals (l : list event) : list event :=
  filter (fun e => is_terminal e = true) l.

(** Every reference of the registry points into the store. *)
Definition well_formed (w : World) : Prop :=
  forall k ref, activeSessions w !! k = Some ref -> (ref < length (store w))%nat.


(** A request still running waits on a pending promise and has sent no
    terminal event; a request that returned has sent one completion, and
    one that threw has sent one error, with its message. *)
Definition ended_once (before : list event) (q : Query.t) : Prop :=
  match Query.result q with
  | Running =>
      Query.settled q = Pending /\ terminals (sent (Query.ws q)) = terminals before
  | Returned =>
      exists id isNewSession,
        terminals (sent (Query.ws q)) =
        terminals before ++ [ClaudeComplete id 0 isNewSession]
  | Threw message =>
      terminals (sent (Query.ws q)) = terminals before ++ [ClaudeError message]
  end.

(** * A reference runtime for the examples *)

(** [path.join] on segments that need no normalisation. *)
Definition plain_join (segments : list string) : string := join "/" segments.

Definition dquote : ascii := "034"%char.

Definition is_json_space (c : ascii) : bool :=
  let n := nat_of_ascii c in
  ((n =? 32) || (n =? 9) || (n =? 10) || (n =? 13))%nat.

Fixpoint skip_space (s : string) : string :=
  match s with
  | "" => ""
  | String c r => if is_json_space c then skip_space r else s
  end.

Definition digit_of (c : ascii) : option Z :=
  let n := nat_of_ascii c in
  if ((48 <=? n) && (n <=? 57))%nat then Some (Z.of_nat (n - 48)) else None.

(** Digits at the front of [s], appended to [acc]; how many; the rest. *)
Fixpoint read_digits (s : string) (acc count : Z) : Z * Z * string :=
  match s with
  | "" => (acc, count, "")
  | String c r =>
      match digit_of c with
      | Some d => read_digits r (10 * acc + d) (count + 1)
      | None => (acc, count, s)
      end
  end.

Definition read_exponent (s : string) : option (Z * string) :=
  match s with
  | String c r =>
      if Ascii.eqb c "e" || Ascii.eqb c "E" then
        let '(sign, r) :=
          match r with
          | String "-" r' => (-1, r')
          | String "+" r' => (1, r')
          | _ => (1, r)
          end in
        let '(x, n, r) := read_digits r 0 0 in
        if n =? 0 then None else Some (sign * x, r)
      else Some (0, s)
  | "" => Some (0, "")
  end.

(** A number literal: sign, integer part without a leading zero, fraction,
    exponent. *)
Definition read_number (s : string) : option (json * string) :=
  let '(sign, s) :=
    match s with
    | String "-" r => (-1, r)
    | _ => (1, s)
    end in
  let leading_zero :=
    match s with
    | String "0" (String c _) => bool_decide (is_Some (digit_of c))
    | _ => false
    end in
  let '(i, n, s) := read_digits s 0 0 in
  if (n =? 0) || leading_zero then None
  else
    let fraction :=
      match s with
      | String "." r =>
          let '(f, k, r') := read_digits r i 0 in
          if k =? 0 then None else Some (f, k, r')
      | _ => Some (i, 0, s)
      end in
    match fraction with
    | Some (m, k, s) =>
        match read_exponent s with
        | Some (x, s) => Some (JNumber (sign * m) (x - k), s)
        | None => None
        end
    | None => None
    end.

Definition unescape (c : ascii) : option ascii :=
  if Ascii.eqb c dquote then Some dquote
  else if Ascii.eqb c "\" then Some "\"%char
  else if Ascii.eqb c "/" then Some "/"%char
  else if Ascii.eqb c "n" then Some "010"%char
  else if Ascii.eqb c "r" then Some "013"%char
  else if Ascii.eqb c "t" then Some "009"%char
  else if Ascii.eqb c "b" then Some "008"%char
  else if Ascii.eqb c "f" then Some "012"%char
  else None.

(** A string literal after its opening quote ([\u] escapes are not read). *)
Fixpoint read_string (s : string) : option (string * string) :=
  match s with
  | "" => None
  | String c r =>
      if Ascii.eqb c dquote then Some ("", r)
      else if Ascii.eqb c "\" then
        match r with
        | String e r' =>
            match unescape e, read_string r' with
            | Some c', Some (t, rest) => Some (String c' t, rest)
            | _, _ => None
            end
        | "" => None
        end
      else if (nat_of_ascii c <? 32)%nat then None
      else
        match read_string r with
        | Some (t, rest) => Some (String c t, rest)
        | None => None
        end
  end.

Fixpoint read_value (fuel : nat) (s : string) : option (json * string) :=
  match fuel with
  | O => None
  | S fuel =>
      match skip_space s with
      | "" => None
      | String c r =>
          if Ascii.eqb c "{" then
            match skip_space r with
            | String "}" r' => Some (JObject [], r')
            | _ => read_members fuel r []
            end
          else if Ascii.eqb c "[" then
            match skip_space r with
            | String "]" r' => Some (JArray [], r')
            | _ => read_items fuel r []
            end
          else if Ascii.eqb c dquote then
            match read_string r with
            | Some (t, rest) => Some (JString t, rest)
            | None => None
            end
          else
            match strip_prefix "true" (String c r), strip_prefix "false" (String c r),
                  strip_prefix "null" (String c r) with
            | Some rest, _, _ => Some (JBool true, rest)
            | _, Some rest, _ => Some (JBool false, rest)
            | _, _, Some rest => Some (JNull, rest)
            | _, _, _ => read_number (String c r)
            end
      end
  end
with read_members (fuel : nat) (s : string) (acc : list (string * json))
  : option (json * string) :=
  match fuel with
  | O => None
  | S fuel =>
      match skip_space s with
      | String c r =>
          if Ascii.eqb c dquote then
            match read_string r with
            | Some (k, r1) =>
                match skip_space r1 with
                | String ":" r2 =>
                    match read_value fuel r2 with
                    | Some (v, r3) =>
                        match skip_space r3 with
                        | String "," r4 => read_members fuel r4 (acc ++ [(k, v)])
                        | String "}" r4 => Some (JObject (acc ++ [(k, v)]), r4)
                        | _ => None
                        end
                    | None => None
                    end
                | _ => None
                end
            | None => None
            end
          else None
      | "" => None
      end
  end
with read_items (fuel : nat) (s : string) (acc : list json) : option (json * string) :=
  match fuel with
  | O => None
  | S fuel =>
      match read_value fuel s with
      | Some (v, r1) =>
          match skip_space r1 with
          | String "," r2 => read_items fuel r2 (acc ++ [v])
          | String "]" r2 => Some (JArray (acc ++ [v]), r2)
          | _ => None
          end
      | None => None
      end
  end.

(** A reader for JSON text, standing in for [JSON.parse] in the examples. *)
Definition read_json (text : string) : option json :=
  match read_value (2 * String.length text + 2) text with
  | Some (v, rest) =>
      match skip_space rest with
      | "" => Some v
      | _ => None
      end
  | None => None
  end.

(** [{"session_id":"abc","type":"system"}] *)
Definition line_system : string :=
  "{" +:+ String dquote "session_id" +:+ String dquote ":"
  +:+ String dquote "abc" +:+ String dquote ","
  +:+ String dquote "type" +:+ String dquote ":"
  +:+ String dquote "system" +:+ String dquote "}".

(** [{"type":"result","total_cost_usd":0.02}] *)
Definition line_result : string :=
  "{" +:+ String dquote "type" +:+ String dquote ":"
  +:+ String dquote "result" +:+ String dquote ","
  +:+ String dquote "total_cost_usd" +:+ String dquote ":0.02}".

Definition message_system : json :=
  JObject [("session_id", JString "abc"); ("type", JString "system")].

Definition message_result : json :=
  JObject [("type", JString "result"); ("total_cost_usd", JNumber 2 (-2))].

(** An empty disk on which nothing is refused, and a world with no session,
    whose clock starts at 1700000000000. *)
Definition empty_disk : Disk :=
  {| files := []; dirs := []; denied := fun _ => false; fs_calls := [] |}.

Definition fresh_world : World :=
  {| activeSessions := ∅; store := []; children := []; timers := [];
     disk := empty_disk; clock := fun n => Z.of_nat n + 1700000000000;
     clock_reads := 0; process_cwd := "/app" |}.

(** The same world with every change to [path] refused. *)
Definition world_denying (path : string) : World :=
  with_disk {| files := []; dirs := []; denied := String.eqb path; fs_calls := [] |}
    fresh_world.

Definition no_options : Options :=
  {| sessionId := None; cwd := None; model := None; images := None;
     toolsSettings := None |}.

Definition resume_options (id : string) : Options :=
  {| sessionId := Some id; cwd := None; model := None; images := None;
     toolsSettings := None |}.

Definition png : Image := {| data := Some "data:image/png;base64,iVBORw0KGgo=" |}.
Definition jpeg : Image := {| data := Some "data:image/jpeg;base64,aGVsbG8=" |}.

Definition options_with_images (id : option string) (imgs : list Image) : Options :=
  {| sessionId := id; cwd := None; model := None; images := Some imgs;
     toolsSettings := None |}.

Definition listening_sink : Sink :=
  {| has_setSessionId := true; sent := []; bound := [] |}.

(** * Concrete runs used by the examples *)

(** A request for a new session whose process cannot be started: the only
    event is ['error']. *)
Definition failed_spawn : World * Query.t :=
  queryClaudeSDK read_json plain_join false "hello" no_options listening_sink None
    [ProcError "spawn claude ENOENT"] fresh_world.

(** The same request once ['close'] has followed, as it does after the
    ['error'] of a process that could not be started. *)
Definition failed_spawn_closed : World * Query.t :=
  deliver read_json failed_spawn (Close (Some (-2))).

(** One valid attachment, no directory named by the caller and a
    [process.cwd()] that throws. *)
Definition staging_without_cwd : World * Staged.t :=
  handleImages plain_join true "describe" (Some [png]) None fresh_world.

(** Two valid attachments, the second of which cannot be written. *)
Definition second_write_refused : World * Staged.t :=
  handleImages plain_join false "describe" (Some [png; jpeg]) None
    (world_denying "/app/.tmp/images/1700000000000/image_1.jpeg").

(** One attachment that is not a data URI: the directory is made and no
    file is written; then the cleanup of the request. *)
Definition not_a_data_uri : Image := {| data := Some "http://example.org/a.png" |}.

Definition nothing_staged : World * Staged.t :=
  handleImages plain_join false "describe" (Some [not_a_data_uri]) None fresh_world.

Definition nothing_staged_cleaned : Disk :=
  cleanupTempFiles (Some (Staged.tempImagePaths nothing_staged.2))
    (Staged.tempDir nothing_staged.2) (disk nothing_staged.1).

(** A request resuming session s1 with one attachment is aborted; then its
    process, killed, closes. *)
Definition aborted_request : World * Query.t :=
  queryClaudeSDK_begin plain_join false "describe" (options_with_images (Some "s1") [png])
    listening_sink None fresh_world.

Definition aborted_session : Session.t :=
  {| Session.process := 0; Session.startTime := 1700000000001;
     Session.status := active;
     Session.tempImagePaths := ["/app/.tmp/images/1700000000000/image_0.png"];
     Session.tempDir := Some "/app/.tmp/images/1700000000000" |}.

Definition after_abort : World * bool :=
  abortClaudeSDKSession (JString "s1") aborted_request.1.




Definition exit_after_abort : World * Query.t :=
  deliver read_json (after_abort.1, aborted_request.2) (Close None).

(** A new request right after its start, as the first line arrives. *)
Definition new_request : World * Query.t :=
  queryClaudeSDK_begin plain_join false "hello" no_options listening_sink None fresh_world.

Definition provisional_key : json := JString "pending_1700000000000".

(** A second request, resuming session s2, started while the request for
    s1 is running. *)
Definition two_requests : World * Query.t :=
  queryClaudeSDK_begin plain_join false "again" (resume_options "s2") listening_sink None
    aborted_request.1.

(** A world whose clock reads the same millisecond every time. *)
Definition stalled_world : World :=
  {| activeSessions := ∅; store := []; children := []; timers := [];
     disk := empty_disk; clock := fun _ => 1700000000000;
     clock_reads := 0; process_cwd := "/app" |}.

(** * Properties *)

(** ** The argument vector *)

Lemma buildCliArgs_normal_form (command : string) (o : Options) :
  buildCliArgs command o =
  ["--print"; "--output-format"; "stream-json"]
  ++ unpair (pushed_options o) ++ [command].
Proof.
  unfold buildCliArgs, pushed_options, unpair.
  destruct (str_truthy (sessionId o)), (tools_list o allowedTools),
    (tools_list o disallowedTools), (str_truthy (model o)); reflexivity.
Qed.

Lemma pairs_of_unpair_snoc (ps : list (string * string)) (c : string) :
  pairs_of (removelast (unpair ps ++ [c])) = ps.
Proof.
  induction ps as [|[a b] ps IH]; [reflexivity|].
  change (unpair ((a, b) :: ps) ++ [c]) with (a :: b :: (unpair ps ++ [c])).
  destruct (unpair ps ++ [c]) as [|x l] eqn:E.
  - destruct (unpair ps); discriminate.
  - simpl in *. rewrite IH. reflexivity.
Qed.

Lemma cli_options_buildCliArgs (command : string) (o : Options) :
  cli_options (buildCliArgs command o) = pushed_options o.
Proof.
  rewrite buildCliArgs_normal_form. unfold cli_options. simpl drop.
  apply pairs_of_unpair_snoc.
Qed.

Lemma str_truthy_spec (s : option string) :
  str_truthy s = true <-> exists v, s = Some v /\ v <> "".
Proof.
  destruct s as [[|c s]|]; simpl; naive_solver.
Qed.

Lemma tools_list_spec (o : Options) (field : ToolsSettings -> option (list string))
  (l : list string) :
  tools_list o field = Some l <-> (toolsSettings o ≫= field) = Some l /\ l <> [].
Proof.
  unfold tools_list.
  destruct (toolsSettings o) as [ts|]; simpl; [|naive_solver].
  destruct (field ts) as [[|x l']|]; naive_solver.
Qed.

Lemma elem_of_pushed_options (o : Options) (f v : string) :
  (f, v) ∈ pushed_options o <->
  (f = "--resume" /\ sessionId o = Some v /\ v <> "")
  \/ (f = "--allowedTools" /\
      exists l, (toolsSettings o ≫= allowedTools) = Some l /\ l <> [] /\ v = join "," l)
  \/ (f = "--disallowedTools" /\
      exists l, (toolsSettings o ≫= disallowedTools) = Some l /\ l <> []
                /\ v = join "," l)
  \/ (f = "--model" /\ model o = Some v /\ v <> "").
Proof.
  unfold pushed_options. rewrite !elem_of_app.
  assert (forall (s : option string) (g : string),
    (f, v) ∈ (if str_truthy s then [(g, default "" s)] else [])
    <-> f = g /\ s = Some v /\ v <> "") as Hopt.
  { intros s g. destruct s as [[|c s]|]; simpl;
      rewrite ?list_elem_of_singleton, ?elem_of_nil; naive_solver. }
  assert (forall (field : ToolsSettings -> option (list string)) (g : string),
    (f, v) ∈ match tools_list o field with
             | Some l => [(g, join "," l)]
             | None => []
             end
    <-> f = g /\ exists l, (toolsSettings o ≫= field) = Some l /\ l <> []
                           /\ v = join "," l) as Htools.
  { intros field g. pose proof (tools_list_spec o field) as Hl.
    destruct (tools_list o field) as [l|].
    - rewrite list_elem_of_singleton. split.
      + intros [= -> ->]. split; [done|]. exists l. by destruct (Hl l) as [[??] _].
      + intros (-> & l' & H1 & H2 & ->).
        assert (Some l = Some l') as [= ->] by (by apply Hl). done.
    - rewrite elem_of_nil. split; [done|].
      intros (_ & l' & H1 & H2 & _). destruct (Hl l') as [_ Hl'].
      by specialize (Hl' (conj H1 H2)). }
  rewrite !Hopt, !Htools. tauto.
Qed.

(** C8: [buildCliArgs] is a function of the prompt and the options alone.
    Its result starts with [--print --output-format stream-json] and ends
    with the prompt as it was given.  Between the two stand flag/value pairs:
    [--resume id] is among them iff the options carry a (non-empty) session
    id, [--allowedTools] with the comma-joined list iff that list is
    non-empty, [--disallowedTools] likewise, [--model m] iff a (non-empty)
    model is given, and there is never any other pair. *)
Theorem buildCliArgs_spec (command : string) (o : Options) :
  let args := buildCliArgs command o in
  take 3 args = ["--print"; "--output-format"; "stream-json"]
  /\ last args = Some command
  /\ args = take 3 args ++ unpair (cli_options args) ++ [command]
  /\ (forall v, ("--resume", v) ∈ cli_options args <-> sessionId o = Some v /\ v <> "")
  /\ (forall v, ("--allowedTools", v) ∈ cli_options args <->
        exists l, (toolsSettings o ≫= allowedTools) = Some l /\ l <> [] /\ v = join "," l)
  /\ (forall v, ("--disallowedTools", v) ∈ cli_options args <->
        exists l, (toolsSettings o ≫= disallowedTools) = Some l /\ l <> []
                  /\ v = join "," l)
  /\ (forall v, ("--model", v) ∈ cli_options args <-> model o = Some v /\ v <> "")
  /\ (forall f v, (f, v) ∈ cli_options args ->
        f ∈ ["--resume"; "--allowedTools"; "--disallowedTools"; "--model"]).
Proof.
  intros args. subst args. rewrite cli_options_buildCliArgs.
  split; [rewrite buildCliArgs_normal_form; reflexivity|].
  split; [rewrite buildCliArgs_normal_form, !app_assoc; apply last_snoc|].
  split; [rewrite buildCliArgs_normal_form at 1 2; reflexivity|].
  split; [|split; [|split; [|split]]].
  1-4: intros v; rewrite elem_of_pushed_options; split;
    [ intros [(E & H)|[(E & H)|[(E & H)|(E & H)]]]; try discriminate E; exact H
    | tauto ].
  intros f v H. apply elem_of_pushed_options in H.
  destruct H as [(-> & _)|[(-> & _)|[(-> & _)|(-> & _)]]];
    repeat first [apply list_elem_of_here | apply list_elem_of_further].
Qed.


(** X16: the flags of the argument vector come in one fixed order,
    [--resume], [--allowedTools], [--disallowedTools], [--model], each at
    most once, and the vector holds nothing but the three leading words,
    these pairs and the prompt: between four and twelve words. *)
Theorem buildCliArgs_flags_in_order (command : string) (o : Options) :
  let args := buildCliArgs command o in
  (fst <$> cli_options args)
    `sublist_of` ["--resume"; "--allowedTools"; "--disallowedTools"; "--model"]
  /\ length args = (4 + 2 * length (cli_options args))%nat
  /\ (4 <= length args <= 12)%nat.
Proof.
  intros args. subst args. rewrite cli_options_buildCliArgs.
  rewrite buildCliArgs_normal_form. unfold pushed_options.
  destruct (str_truthy (sessionId o)), (tools_list o allowedTools),
    (tools_list o disallowedTools), (str_truthy (model o)); simpl;
    (split; [repeat first [apply sublist_nil | apply sublist_skip
                          | apply sublist_cons]|]);
    (split; [reflexivity|lia]).
Qed.

(** ** Cleanup *)

Lemma filter_twice {A : Type} (P : A -> bool) (l : list A) :
  filter (fun x => P x) (filter (fun x => P x) l) = filter (fun x => P x) l.
Proof.
  induction l as [|x l IH]; [reflexivity|].
  rewrite filter_cons. destruct (decide (P x)) as [H|H].
  - rewrite filter_cons_True by done. by rewrite IH.
  - exact IH.
Qed.

Lemma denied_foldl_unlink (paths : list string) (d : Disk) :
  denied (foldl (fun d p => unlink p d) d paths) = denied d.
Proof.
  revert d. induction paths as [|p paths IH]; intros d; simpl; [done|].
  by rewrite IH.
Qed.

Lemma dirs_foldl_unlink (paths : list string) (d : Disk) :
  dirs (foldl (fun d p => unlink p d) d paths) = dirs d.
Proof.
  revert d. induction paths as [|p paths IH]; intros d; simpl; [done|].
  by rewrite IH.
Qed.

Lemma fs_calls_foldl_unlink (paths : list string) (d : Disk) :
  fs_calls (foldl (fun d p => unlink p d) d paths) = fs_calls d ++ (FsUnlink <$> paths).
Proof.
  revert d. induction paths as [|p paths IH]; intros d; simpl.
  - by rewrite app_nil_r.
  - rewrite IH. simpl. by rewrite <- app_assoc.
Qed.

Lemma files_foldl_unlink (paths : list string) (d : Disk) :
  files (foldl (fun d p => unlink p d) d paths) =
  filter (fun f => forallb (fun p => denied d p || negb (String.eqb f.1 p)) paths)
    (files d).
Proof.
  revert d. induction paths as [|p paths IH]; intros d; simpl.
  - induction (files d) as [|f l IHl]; [done|].
    rewrite filter_cons_True by done. by rewrite <- IHl.
  - rewrite IH. simpl. destruct (denied d p) eqn:Hp; simpl; [done|].
    rewrite list_filter_filter. apply list_filter_iff. intros f.
    destruct (String.eqb_spec f.1 p) as [->|Hne]; simpl.
    + split; [intros [_ []]|intros []]. done.
    + tauto.
Qed.

Lemma cleanupTempFiles_denied (paths : option (list string)) (dir : option string)
  (d : Disk) :
  denied (cleanupTempFiles paths dir d) = denied d.
Proof.
  destruct paths as [[|p l]|]; try reflexivity.
  unfold cleanupTempFiles. destruct (str_truthy dir); simpl;
    apply (denied_foldl_unlink l (unlink p d)).
Qed.

Lemma cleanupTempFiles_fs_calls (paths : option (list string)) (dir : option string)
  (d : Disk) :
  fs_calls (cleanupTempFiles paths dir d) =
  fs_calls d ++ cleanup_calls (default [] paths) dir.
Proof.
  destruct paths as [[|p l]|]; simpl; rewrite ?app_nil_r; try reflexivity.
  pose proof (fs_calls_foldl_unlink (p :: l) d) as H. simpl in H.
  destruct (str_truthy dir); simpl; rewrite H; simpl.
  - by rewrite <- app_assoc.
  - by rewrite app_nil_r.
Qed.

Lemma cleanupTempFiles_files (p : string) (l : list string) (dir : option string)
  (d : Disk) :
  files (cleanupTempFiles (Some (p :: l)) dir d) =
  filter (fun f => spared (denied d) (p :: l) dir f.1) (files d).
Proof.
  pose proof (files_foldl_unlink (p :: l) d) as H.
  pose proof (denied_foldl_unlink (p :: l) d) as Hd.
  unfold cleanupTempFiles, spared, spared_by_rm.
  destruct (str_truthy dir); simpl in *.
  - rewrite Hd. destruct (denied d (default "" dir)); simpl.
    + rewrite H. apply list_filter_iff. intros f.
      rewrite !andb_True. simpl. tauto.
    + rewrite H, list_filter_filter. apply list_filter_iff. intros f.
      rewrite !andb_True. simpl. tauto.
  - rewrite H. apply list_filter_iff. intros f. rewrite !andb_True. simpl. tauto.
Qed.

Lemma cleanupTempFiles_dirs (p : string) (l : list string) (dir : option string)
  (d : Disk) :
  dirs (cleanupTempFiles (Some (p :: l)) dir d) =
  filter (fun q => spared_by_rm (denied d) dir q) (dirs d).
Proof.
  pose proof (dirs_foldl_unlink (p :: l) d) as H.
  pose proof (denied_foldl_unlink (p :: l) d) as Hd.
  assert (forall l' : list string, filter (fun _ : string => true) l' = l') as Hall.
  { induction l' as [|x l' IH]; [done|]. rewrite filter_cons_True by done.
    by rewrite IH. }
  unfold cleanupTempFiles, spared_by_rm.
  destruct (str_truthy dir); simpl in *.
  - rewrite Hd, H. destruct (denied d (default "" dir)); simpl; [|done].
    by rewrite Hall.
  - rewrite H. by rewrite Hall.
Qed.

(** Running the cleanup a second time changes neither files nor
    directories. *)
Lemma cleanupTempFiles_twice (paths : option (list string)) (dir : option string)
  (d : Disk) :
  contents (cleanupTempFiles paths dir (cleanupTempFiles paths dir d)) =
  contents (cleanupTempFiles paths dir d).
Proof.
  destruct paths as [[|p l]|]; try reflexivity.
  unfold contents.
  rewrite (cleanupTempFiles_files p l dir (cleanupTempFiles _ _ d)).
  rewrite (cleanupTempFiles_dirs p l dir (cleanupTempFiles _ _ d)).
  rewrite cleanupTempFiles_denied.
  rewrite cleanupTempFiles_files, cleanupTempFiles_dirs.
  f_equal.
  - apply (filter_twice (fun f => spared (denied d) (p :: l) dir f.1)).
  - apply (filter_twice (fun q => spared_by_rm (denied d) dir q)).
Qed.

(** C3 (amended): [cleanupTempFiles] never raises.  With a non-empty list
    of paths it unlinks each path in order and then removes the directory
    when one is given, recursively, every failure being swallowed: a path
    whose removal is not refused is gone afterwards, and so is everything at
    or below the directory.  With an empty or absent list it does nothing at
    all, whether a directory is given or not.  A second call with the same
    arguments leaves files and directories as the first call left them. *)
Theorem cleanupTempFiles_spec (tempImagePaths : option (list string))
  (tempDir : option string) (d : Disk) :
  let paths := default [] tempImagePaths in
  let d' := cleanupTempFiles tempImagePaths tempDir d in
  (paths = [] -> d' = d)
  /\ fs_calls d' = fs_calls d ++ cleanup_calls paths tempDir
  /\ (paths <> [] ->
      fs_calls d' = fs_calls d ++ (FsUnlink <$> paths)
                    ++ (if str_truthy tempDir then [FsRm (default "" tempDir)] else []))
  /\ (forall p, p ∈ paths -> denied d p = false -> p ∉ (fst <$> files d'))
  /\ (paths <> [] -> forall dir, tempDir = Some dir -> dir <> "" ->
      denied d dir = false ->
      forall q, under dir q = true -> (q ∉ dirs d') /\ (q ∉ (fst <$> files d')))
  /\ denied d' = denied d
  /\ contents (cleanupTempFiles tempImagePaths tempDir d') = contents d'.
Proof.
  intros paths d'. subst paths d'.
  split; [|split; [|split; [|split; [|split; [|split]]]]].
  - destruct tempImagePaths as [[|p l]|]; simpl; done.
  - apply cleanupTempFiles_fs_calls.
  - intros Hne. rewrite cleanupTempFiles_fs_calls. unfold cleanup_calls.
    destruct (default [] tempImagePaths); done.
  - intros p Hp Hden Hin. destruct tempImagePaths as [[|p0 l]|]; simpl in Hp;
      try by apply elem_of_nil in Hp.
    apply list_elem_of_fmap in Hin as ([name payload] & Heq & Hin).
    simpl in Heq. subst name.
    rewrite cleanupTempFiles_files in Hin.
    apply list_elem_of_filter in Hin as [Hs _].
    unfold spared in Hs. apply andb_True in Hs as [Hs _].
    apply Is_true_true in Hs. rewrite forallb_forall in Hs.
    specialize (Hs p). rewrite <- list_elem_of_In in Hs. specialize (Hs Hp).
    simpl in Hs. rewrite Hden, String.eqb_refl in Hs. done.
  - intros Hne dir -> Hdir Hden q Hq.
    destruct tempImagePaths as [[|p0 l]|]; simpl in Hne; try done.
    assert (spared_by_rm (denied d) (Some dir) q = false) as Hno.
    { unfold spared_by_rm. destruct dir; [done|]. simpl in *. by rewrite Hden, Hq. }
    split.
    + rewrite cleanupTempFiles_dirs. intros Hin.
      apply list_elem_of_filter in Hin as [Hs _]. by rewrite Hno in Hs.
    + intros Hin. apply list_elem_of_fmap in Hin as ([name payload] & Heq & Hin).
      simpl in Heq. subst name.
      rewrite cleanupTempFiles_files in Hin.
      apply list_elem_of_filter in Hin as [Hs _].
      unfold spared in Hs. apply andb_True in Hs as [_ Hs]. simpl in Hs.
      by rewrite Hno in Hs.
  - apply cleanupTempFiles_denied.
  - apply cleanupTempFiles_twice.
Qed.

(** X17: the cleanup only removes.  Whatever the paths and the directory
    it is given, the files left are files that were there, in the same
    order and with the same content, and the directories left are
    directories that were there; nothing is created or rewritten, and the
    only calls made are removals, of files for the paths and of a
    directory tree for the directory. *)
Theorem cleanupTempFiles_only_removes (tempImagePaths : option (list string))
  (tempDir : option string) (d : Disk) :
  let d' := cleanupTempFiles tempImagePaths tempDir d in
  files d' `sublist_of` files d
  /\ dirs d' `sublist_of` dirs d
  /\ exists calls,
       fs_calls d' = fs_calls d ++ calls
       /\ Forall (fun call => match call with
                              | FsUnlink p => p ∈ default [] tempImagePaths
                              | FsRm p => tempDir = Some p
                              | FsMkdir _ | FsWriteFile _ _ => False
                              end) calls.
Proof.
  intros d'. subst d'.
  split; [|split].
  - destruct tempImagePaths as [[|p l]|]; try done.
    rewrite cleanupTempFiles_files. apply sublist_filter.
  - destruct tempImagePaths as [[|p l]|]; try done.
    rewrite cleanupTempFiles_dirs. apply sublist_filter.
  - exists (cleanup_calls (default [] tempImagePaths) tempDir).
    split; [apply cleanupTempFiles_fs_calls|].
    unfold cleanup_calls. destruct (default [] tempImagePaths) as [|p l]; [done|].
    apply Forall_app. split.
    + apply Forall_fmap, Forall_forall. by intros q Hq.
    + destruct tempDir as [[|c dir]|]; simpl; by repeat constructor.
Qed.
(** ** Data URIs and file extensions *)

Lemma append_cons (a : ascii) (s t : string) :
  String a s +:+ t = String a (s +:+ t).
Proof. reflexivity. Qed.

Lemma strip_prefix_spec (p s r : string) :
  strip_prefix p s = Some r <-> s = p +:+ r.
Proof.
  revert s. induction p as [|a p IH]; intros s.
  - simpl. split; [by intros [= ->]|by intros ->].
  - rewrite append_cons. destruct s as [|b s]; simpl; [split; discriminate|].
    destruct (Ascii.eqb_spec a b) as [->|Hne].
    + rewrite IH. split; [by intros ->|]. intros [= ->]. done.
    + split; [discriminate|]. intros [= E _]. by destruct Hne.
Qed.

Lemma span_not_sound (c : ascii) (s u v : string) :
  span_not c s = (u, v) ->
  s = u +:+ v /\ has_char c u = false /\ (v = "" \/ exists v', v = String c v').
Proof.
  revert u. induction s as [|a s IH]; intros u; simpl.
  - intros [= <- <-]. auto.
  - destruct (Ascii.eqb_spec a c) as [->|Hne].
    + intros [= <- <-]. repeat split; eauto.
    + destruct (span_not c s) as [u0 v0]. intros [= <- <-].
      destruct (IH u0 eq_refl) as (-> & Hu & Hv).
      rewrite append_cons. simpl. apply Ascii.eqb_neq in Hne. rewrite Hne. auto.
Qed.

Lemma span_not_complete (c : ascii) (u v : string) :
  has_char c u = false -> (v = "" \/ exists v', v = String c v') ->
  span_not c (u +:+ v) = (u, v).
Proof.
  intros Hu Hv. induction u as [|a u IH].
  - simpl. destruct Hv as [->|[v' ->]]; simpl; [done|].
    by rewrite Ascii.eqb_refl.
  - rewrite append_cons. simpl in *. apply orb_false_iff in Hu as [Ha Hu].
    rewrite Ha, (IH Hu). done.
Qed.

(** X1: the pattern [^data:([^;]+);base64,(.+)$] matches exactly the strings
    made of [data:], a non-empty media type without semicolon, [;base64,]
    and a non-empty payload without line break; the two groups returned are
    that media type and that payload. *)
Theorem match_data_uri_spec (s mimeType base64Data : string) :
  match_data_uri s = Some (mimeType, base64Data) <->
  s = "data:" +:+ mimeType +:+ ";base64," +:+ base64Data
  /\ mimeType <> "" /\ has_char ";" mimeType = false
  /\ base64Data <> "" /\ has_line_break base64Data = false.
Proof.
  unfold match_data_uri. split.
  - destruct (strip_prefix "data:" s) as [rest|] eqn:Hp; [|discriminate].
    apply strip_prefix_spec in Hp as ->.
    destruct (span_not ";" rest) as [m tl] eqn:Hs.
    apply span_not_sound in Hs as (-> & Hm & _).
    destruct m as [|a m]; [discriminate|].
    destruct (strip_prefix ";base64," tl) as [[|b p]|] eqn:Ht; try discriminate.
    apply strip_prefix_spec in Ht as ->.
    destruct (has_line_break (String b p)) eqn:Hb; [discriminate|].
    intros [= <- <-]. done.
  - intros (-> & Hne & Hm & Hpne & Hb).
    assert (strip_prefix "data:"
              ("data:" +:+ mimeType +:+ ";base64," +:+ base64Data)
            = Some (mimeType +:+ ";base64," +:+ base64Data)) as ->
      by (by apply strip_prefix_spec).
    rewrite (span_not_complete ";" mimeType (";base64," +:+ base64Data)); [|done|].
    2:{ right. eexists. reflexivity. }
    assert (strip_prefix ";base64," (";base64," +:+ base64Data) = Some base64Data)
      as -> by (by apply strip_prefix_spec).
    destruct mimeType; [done|]. destruct base64Data; [done|]. by rewrite Hb.
Qed.

Lemma split_on_nonempty (sep : ascii) (s : string) : split_on sep s <> [].
Proof.
  destruct s as [|a s]; simpl; [done|].
  destruct (Ascii.eqb a sep); [done|]. by destruct (split_on sep s).
Qed.

Lemma split_on_no_separator (sep : ascii) (s : string) :
  Forall (fun segment => has_char sep segment = false) (split_on sep s).
Proof.
  induction s as [|a s IH]; simpl; [by repeat constructor|].
  destruct (Ascii.eqb a sep) eqn:Ha; [by constructor|].
  destruct (split_on sep s) as [|h t].
  - constructor; [simpl; by rewrite Ha|constructor].
  - inversion IH; subst. constructor; [|done]. simpl. by rewrite Ha.
Qed.

Lemma split_on_no_separator_inside (sep : ascii) (s : string) :
  has_char sep s = false -> split_on sep s = [s].
Proof.
  induction s as [|a s IH]; simpl; [done|].
  intros H. apply orb_false_iff in H as [Ha Hs]. rewrite Ha, (IH Hs). done.
Qed.

Lemma split_on_append (sep : ascii) (a b : string) :
  has_char sep a = false ->
  split_on sep (a +:+ String sep b) = a :: split_on sep b.
Proof.
  induction a as [|c a IH]; intros H.
  - simpl. by rewrite Ascii.eqb_refl.
  - rewrite append_cons. simpl in *. apply orb_false_iff in H as [Hc Ha].
    rewrite Hc, (IH Ha). done.
Qed.

(** X2: the extension taken from a media type is never empty and never
    holds a slash, so the file name built from it is a single path
    segment.  It is the part after the first slash when that part is not
    empty and holds no further slash, and [png] when the media type has no
    slash or nothing after it. *)
Theorem extension_of_spec (mimeType : string) :
  extension_of mimeType <> ""
  /\ has_char "/" (extension_of mimeType) = false
  /\ (has_char "/" mimeType = false -> extension_of mimeType = "png")
  /\ (forall type subtype,
        mimeType = type +:+ "/" +:+ subtype ->
        has_char "/" type = false -> has_char "/" subtype = false ->
        extension_of mimeType = if String.eqb subtype "" then "png" else subtype).
Proof.
  unfold extension_of.
  pose proof (split_on_no_separator "/" mimeType) as Hall.
  split; [|split; [|split]].
  - destruct (split_on "/" mimeType !! 1%nat) as [[|c e]|]; done.
  - destruct (split_on "/" mimeType !! 1%nat) as [[|c e]|] eqn:E; try done.
    rewrite Forall_lookup in Hall. exact (Hall _ _ E).
  - intros H. by rewrite split_on_no_separator_inside.
  - intros type subtype -> Ht Hs.
    change ("/" +:+ subtype) with (String "/" subtype).
    rewrite split_on_append by done.
    rewrite split_on_no_separator_inside by done. simpl.
    by destruct subtype.
Qed.

Section Properties.

Variable JSON_parse : string -> option json.
Variable path_join : list string -> string.
Variable cwd_throws : bool.

(** ** Attachment staging *)

Lemma writeFile_names (p payload : string) (d : Disk) :
  forall d' ok, writeFile p payload d = (d', ok) ->
  (forall q, q ∈ (fst <$> files d) -> q ∈ (fst <$> files d'))
  /\ (ok = true -> p ∈ (fst <$> files d')).
Proof.
  intros d' ok. unfold writeFile. destruct (denied d p); intros [= <- <-]; simpl.
  - split; [done|discriminate].
  - split.
    + intros q Hq. rewrite fmap_app. apply elem_of_app.
      destruct (decide (q = p)) as [->|Hne].
      * right. simpl. apply list_elem_of_here.
      * left. apply list_elem_of_fmap in Hq as ([name pl] & Heq & Hq).
        simpl in Heq. subst name. apply list_elem_of_fmap.
        exists (q, pl). split; [done|]. apply list_elem_of_filter. done.
    + intros _. rewrite fmap_app. apply elem_of_app. right. apply list_elem_of_here.
Qed.

(** The loop only adds paths, each of a file it wrote, at most one per
    attachment and fewer when it stopped on an error. *)
Lemma write_images_grows (tempDir : string) (imgs : list Image) :
  forall index paths d d' out ok,
  write_images path_join tempDir index imgs paths d = (d', out, ok) ->
  exists more,
    out = paths ++ more
    /\ (length more <= length imgs)%nat
    /\ (ok = false -> (length more < length imgs)%nat)
    /\ (forall q, q ∈ (fst <$> files d) -> q ∈ (fst <$> files d'))
    /\ (forall q, q ∈ more -> q ∈ (fst <$> files d')).
Proof.
  induction imgs as [|image rest IH]; intros index paths d d' out ok; simpl.
  - intros [= <- <- <-]. exists []. rewrite app_nil_r.
    repeat split; try done. intros q Hq. by apply elem_of_nil in Hq.
  - destruct (data image) as [uri|].
    2:{ intros [= <- <- <-]. exists []. rewrite app_nil_r. simpl.
        repeat split; try done; try lia. intros q Hq. by apply elem_of_nil in Hq. }
    destruct (match_data_uri uri) as [[mimeType base64Data]|].
    2:{ intros H. apply IH in H as (more & -> & Hlen & Hlt & Hmono & Hin).
        exists more. repeat split; try done; try lia. }
    destruct (writeFile _ base64Data d) as [d1 ok1] eqn:Hw.
    apply writeFile_names in Hw as [Hkeep Hnew].
    destruct ok1.
    + intros H. apply IH in H as (more & -> & Hlen & Hlt & Hmono & Hin).
      eexists (_ :: more). rewrite <- app_assoc. simpl.
      repeat split; try done; try lia.
      * intros Hok. specialize (Hlt Hok). lia.
      * intros q Hq. auto.
      * intros q Hq. apply elem_of_cons in Hq as [->|Hq]; auto.
    + intros [= <- <- <-]. exists []. rewrite app_nil_r. simpl.
      repeat split; try done; try lia. intros q Hq. by apply elem_of_nil in Hq.
Qed.

(** C2 (amended): when an error is thrown while the attachments are staged,
    [handleImages] does not let it out.  It returns the prompt it was given,
    unmodified, together with the list of paths and the directory as they
    stood when the error was thrown, which are not empty and null in
    general: the list holds the paths of the files written before the error
    (fewer than there are attachments, each a file now on the disk), and
    the directory is null only when the error came before it was chosen,
    nothing having been done then; otherwise it is the directory chosen for
    the request. *)
Theorem handleImages_error_degrades (command : string) (imgs : list Image)
  (cwd : option string) (w w' : World) (paths : list string) (dir : option string) :
  imgs <> [] ->
  handleImages_try path_join cwd_throws command imgs cwd w = (w', paths, dir, None) ->
  handleImages path_join cwd_throws command (Some imgs) cwd w =
    (w', {| Staged.modifiedCommand := command; Staged.tempImagePaths := paths;
            Staged.tempDir := dir |})
  /\ (length paths < length imgs)%nat
  /\ (forall p, p ∈ paths -> p ∈ (fst <$> files (disk w')))
  /\ match dir with
     | None => str_truthy cwd = false /\ cwd_throws = true /\ paths = [] /\ w' = w
     | Some d =>
         d = path_join [if str_truthy cwd then default "" cwd else process_cwd w;
                        ".tmp"; "images"; pretty (clock w (clock_reads w))]
     end.
Proof.
  intros Hne Htry. split.
  { unfold handleImages. destruct imgs; [done|]. by rewrite Htry. }
  revert Htry. unfold handleImages_try.
  destruct (negb (str_truthy cwd) && cwd_throws) eqn:Hearly.
  { intros [= <- <- <-]. apply andb_prop in Hearly as [Hcwd Hthrows].
    apply negb_true_iff in Hcwd.
    split; [destruct imgs; simpl; [done|lia]|].
    split; [intros p Hp; by apply elem_of_nil in Hp|done]. }
  simpl.
  destruct (mkdir _ (disk w)) as [d ok] eqn:Hm. destruct ok.
  - destruct (write_images _ _ _ _ _ _) as [[d1 out] ok] eqn:Hw.
    apply write_images_grows in Hw as (more & -> & Hlen & Hlt & _ & Hin).
    destruct ok; [discriminate|]. intros [= <- <- <-]. simpl.
    split; [by apply Hlt|]. split; [exact Hin|done].
  - intros [= <- <- <-]. simpl.
    split; [destruct imgs; simpl; [done|lia]|].
    split; [intros p Hp; by apply elem_of_nil in Hp|done].
Qed.

(** ** The request: framing lemmas *)

Lemma same_request_refl (q : Query.t) : same_request q q.
Proof. by repeat split. Qed.

Lemma same_request_trans (q1 q2 q3 : Query.t) :
  same_request q1 q2 -> same_request q2 q3 -> same_request q1 q3.
Proof.
  unfold same_request. intros (?&?&?&?&?&?&?) (?&?&?&?&?&?&?).
  repeat split; congruence.
Qed.

Lemma handleImages_try_frame (command : string) (imgs : list Image)
  (cwd : option string) (w : World) :
  let w' := (handleImages_try path_join cwd_throws command imgs cwd w).1.1.1 in
  activeSessions w' = activeSessions w /\ store w' = store w
  /\ children w' = children w /\ timers w' = timers w
  /\ process_cwd w' = process_cwd w /\ clock w' = clock w.
Proof.
  unfold handleImages_try. destruct (negb (str_truthy cwd) && cwd_throws); [done|].
  simpl.
  destruct (mkdir _ (disk w)) as [d [|]]; simpl; [|done].
  destruct (write_images _ _ _ _ _ _) as [[d1 out] [|]]; simpl; done.
Qed.

Lemma handleImages_frame (command : string) (images : option (list Image))
  (cwd : option string) (w : World) :
  let w' := (handleImages path_join cwd_throws command images cwd w).1 in
  activeSessions w' = activeSessions w /\ store w' = store w
  /\ children w' = children w /\ timers w' = timers w
  /\ process_cwd w' = process_cwd w /\ clock w' = clock w.
Proof.
  unfold handleImages. destruct images as [[|image imgs]|]; simpl; try done.
  pose proof (handleImages_try_frame command (image :: imgs) cwd w) as H.
  destruct (handleImages_try _ _ _ _ _) as [[[w1 ps] dir] [m|]]; exact H.
Qed.

Lemma queryClaudeSDK_begin_spawned (command : string) (options : Options) (ws : Sink)
  (w : World) :
  exists w1 staged key now,
    queryClaudeSDK_begin path_join cwd_throws command options ws None w =
      (w1, started command options ws staged key (length (children w)))
    /\ staged = (handleImages path_join cwd_throws command (images options) (cwd options) w).2
    /\ (forall id, sessionId options = Some id -> id <> "" -> key = JString id)
    /\ (str_truthy (sessionId options) = false ->
        exists t : Z, key = JString ("pending_" +:+ pretty t))
    /\ activeSessions w1 = <[key := length (store w)]> (activeSessions w)
    /\ store w1 = store w ++
         [{| Session.process := length (children w); Session.startTime := now;
             Session.status := active;
             Session.tempImagePaths := Staged.tempImagePaths staged;
             Session.tempDir := Staged.tempDir staged |}].
Proof.
  unfold queryClaudeSDK_begin.
  pose proof (handleImages_frame command (images options) (cwd options) w) as Hf.
  destruct (handleImages _ _ _ _ _) as [w0 staged]. simpl in Hf.
  destruct Hf as (Ha & Hs & Hc & _). rewrite <- Ha, <- Hs, <- Hc.
  destruct (sessionId options) as [[|c id]|] eqn:Hid; simpl;
    eexists _, staged, _, _; (split; [unfold started; rewrite Hid; reflexivity|]);
    simpl;
    (split; [reflexivity|]); (split; [intros id' [= <-] Hne; done|]);
    (split; [intros Hno; try discriminate Hno; eexists; reflexivity|]);
    (split; reflexivity).
Qed.

(** ** The request: one event at a time *)

Lemma count_session_created_app (l1 l2 : list event) :
  count_session_created (l1 ++ l2) =
  (count_session_created l1 + count_session_created l2)%nat.
Proof. unfold count_session_created. by rewrite filter_app, length_app. Qed.

Lemma count_session_created_snoc (l : list event) (e : event) :
  count_session_created (l ++ [e]) =
  (count_session_created l + if is_session_created e then 1 else 0)%nat.
Proof. rewrite count_session_created_app. by destruct e. Qed.

(** The handlers of the error stream, of ['close'] and of ['error'] leave
    the sink and the captured id alone. *)
Lemma on_stderr_quiet (chunk : string) (st : World * Query.t) :
  let q' := (on_stderr chunk st).2 in
  Query.ws q' = Query.ws st.2
  /\ Query.capturedSessionId q' = Query.capturedSessionId st.2
  /\ same_request st.2 q'
  /\ Query.settled q' = Query.settled st.2
  /\ Query.result q' = Query.result st.2
  /\ (on_stderr chunk st).1 = st.1.
Proof. destruct st as [w q]. unfold same_request. simpl. done. Qed.

Lemma on_close_quiet (code : option Z) (st : World * Query.t) :
  let q' := (on_close code st).2 in
  Query.ws q' = Query.ws st.2
  /\ Query.capturedSessionId q' = Query.capturedSessionId st.2
  /\ same_request st.2 q'
  /\ Query.result q' = Query.result st.2
  /\ Query.stderrBuffer q' = Query.stderrBuffer st.2.
Proof.
  destruct st as [w q]. unfold same_request, on_close, settle.
  destruct code as [[| |]|], (Query.settled q); simpl; done.
Qed.

Lemma on_error_quiet (message : string) (st : World * Query.t) :
  let q' := (on_error message st).2 in
  Query.ws q' = Query.ws st.2
  /\ Query.capturedSessionId q' = Query.capturedSessionId st.2
  /\ same_request st.2 q'
  /\ Query.result q' = Query.result st.2
  /\ (on_error message st).1 = st.1.
Proof.
  destruct st as [w q]. unfold same_request, on_error, settle.
  destruct (Query.settled q); simpl; done.
Qed.

(** What follows the [await] sends one event, a completion or an error,
    or nothing; it binds no id and captures none. *)
Lemma resume_sink (st : World * Query.t) :
  let q := st.2 in
  let q' := (resume st).2 in
  Query.capturedSessionId q' = Query.capturedSessionId q
  /\ same_request q q'
  /\ bound (Query.ws q') = bound (Query.ws q)
  /\ Query.settled q' = Query.settled q
  /\ (Query.ws q' = Query.ws q
      \/ sent (Query.ws q') =
           sent (Query.ws q) ++
             [ClaudeComplete (Query.capturedSessionId q) 0
                (negb (str_truthy (sessionId (Query.options q)))
                 && negb (String.eqb (Query.command q) ""))]
      \/ exists message, sent (Query.ws q') = sent (Query.ws q) ++ [ClaudeError message]).
Proof.
  destruct st as [w q]. unfold same_request, resume.
  destruct (Query.result q), (Query.settled q); simpl;
    (split; [done|]); (split; [done|]); (split; [done|]); (split; [done|]);
    first [ by left | by (right; left) | by (right; right; eexists) ].
Qed.

(** The line handler never touches the promise, the result or the disk. *)
Lemma on_line_control (line : string) (st : World * Query.t) :
  let q := st.2 in
  let st' := on_line JSON_parse line st in
  same_request q st'.2
  /\ Query.settled st'.2 = Query.settled q
  /\ Query.result st'.2 = Query.result q
  /\ Query.stderrBuffer st'.2 = Query.stderrBuffer q
  /\ disk st'.1 = disk st.1
  /\ store st'.1 = store st.1.
Proof.
  destruct st as [w q]. unfold same_request, on_line, send_text, setSessionId, send.
  simpl. repeat case_match; simplify_eq/=; done.
Qed.

(** One line adds at most one [session-created], and only when no id was
    captured before and none was supplied; a captured id stays captured. *)
Lemma on_line_created (line : string) (st : World * Query.t) :
  let q := st.2 in
  let q' := (on_line JSON_parse line st).2 in
  sent (Query.ws q) `prefix_of` sent (Query.ws q')
  /\ ((created q' = created q
       /\ (opt_truthy (Query.capturedSessionId q) = true ->
           Query.capturedSessionId q' = Query.capturedSessionId q))
      \/ (created q' = S (created q)
          /\ opt_truthy (Query.capturedSessionId q) = false
          /\ opt_truthy (Query.capturedSessionId q') = true
          /\ str_truthy (sessionId (Query.options q)) = false))
  /\ (opt_truthy (Query.capturedSessionId q) = true ->
      opt_truthy (Query.capturedSessionId q') = true).
Proof.
  destruct st as [w q]. unfold on_line, send_text, setSessionId, send, created.
  simpl. repeat case_match; simplify_eq/=;
    rewrite ?count_session_created_snoc, ?Nat.add_0_r; simpl.
  all: split;
    [ repeat first [ reflexivity
                   | apply prefix_app_r; reflexivity
                   | rewrite <- app_assoc; apply prefix_app_r; reflexivity ]
    | ].
  all: try (split; [left; split; [lia|done]|done]).
  all: try match goal with
       | H : opt_truthy ?s && negb (opt_truthy ?c) = true |- _ =>
           apply andb_prop in H as [Hs Hc]; apply negb_true_iff in Hc;
           destruct s as [id|]; [|discriminate Hs]; simpl in Hs |- *
       end.
  all: try match goal with
       | H : negb (str_truthy ?s) && negb ?b = true |- _ =>
           apply andb_prop in H as [Hn _]; apply negb_true_iff in Hn
       end.
  all: try (split; [right; repeat split; [lia|done..]|done]).
  all: try (split; [left; split; [lia|congruence]|done]).
Qed.

Lemma created_resume (st : World * Query.t) :
  created (resume st).2 = created st.2.
Proof.
  destruct (resume_sink st) as (_ & _ & _ & _ & [H|[H|[m H]]]); unfold created.
  - by rewrite H.
  - rewrite H, count_session_created_snoc. simpl. lia.
  - rewrite H, count_session_created_snoc. simpl. lia.
Qed.

Lemma sent_resume (st : World * Query.t) :
  sent (Query.ws st.2) `prefix_of` sent (Query.ws (resume st).2).
Proof.
  destruct (resume_sink st) as (_ & _ & _ & _ & [H|[H|[m H]]]); rewrite H;
    [reflexivity|by apply prefix_app_r..].
Qed.

(** One event adds at most one [session-created], and only when no id was
    captured before and none was supplied; a captured id stays captured. *)
Lemma deliver_created (st : World * Query.t) (ev : proc_event) :
  let q := st.2 in
  let q' := (deliver JSON_parse st ev).2 in
  sent (Query.ws q) `prefix_of` sent (Query.ws q')
  /\ Query.options q' = Query.options q
  /\ (created q' = created q
      \/ (created q' = S (created q)
          /\ opt_truthy (Query.capturedSessionId q) = false
          /\ opt_truthy (Query.capturedSessionId q') = true
          /\ str_truthy (sessionId (Query.options q)) = false))
  /\ (opt_truthy (Query.capturedSessionId q) = true ->
      opt_truthy (Query.capturedSessionId q') = true).
Proof.
  intros q q'. subst q q'. unfold deliver.
  destruct (Query.claudeProcess st.2); [|by repeat split; auto].
  destruct ev as [line|chunk|code|message].
  - destruct (on_line_created line st) as (Hp & Hc & Ht).
    destruct (on_line_control line st) as ((_ & Ho & _) & _).
    destruct (resume_sink (on_line JSON_parse line st)) as (Hcap & (_ & Ho' & _) & _).
    pose proof (created_resume (on_line JSON_parse line st)) as Hcr.
    pose proof (sent_resume (on_line JSON_parse line st)) as Hsr.
    rewrite Hcap, Hcr. split; [by etrans|]. split; [congruence|].
    split; [|done]. destruct Hc as [[Hc _]|Hc]; [by left|by right].
  - destruct (on_stderr_quiet chunk st) as (Hws & Hcap' & (_ & Ho & _) & _).
    destruct (resume_sink (on_stderr chunk st)) as (Hcap & (_ & Ho' & _) & _).
    pose proof (created_resume (on_stderr chunk st)) as Hcr.
    pose proof (sent_resume (on_stderr chunk st)) as Hsr.
    rewrite Hws in Hsr. unfold created in *. rewrite Hws in Hcr.
    rewrite Hcap, Hcap'. repeat split; [done|congruence|by left|done].
  - destruct (on_close_quiet code st) as (Hws & Hcap' & (_ & Ho & _) & _).
    destruct (resume_sink (on_close code st)) as (Hcap & (_ & Ho' & _) & _).
    pose proof (created_resume (on_close code st)) as Hcr.
    pose proof (sent_resume (on_close code st)) as Hsr.
    rewrite Hws in Hsr. unfold created in *. rewrite Hws in Hcr.
    rewrite Hcap, Hcap'. repeat split; [done|congruence|by left|done].
  - destruct (on_error_quiet message st) as (Hws & Hcap' & (_ & Ho & _) & _).
    destruct (resume_sink (on_error message st)) as (Hcap & (_ & Ho' & _) & _).
    pose proof (created_resume (on_error message st)) as Hcr.
    pose proof (sent_resume (on_error message st)) as Hsr.
    rewrite Hws in Hsr. unfold created in *. rewrite Hws in Hcr.
    rewrite Hcap, Hcap'. repeat split; [done|congruence|by left|done].
Qed.

(** How a request starts, whether [spawn] throws or not: nothing but a
    possible error event has reached the sink, and the captured id is the
    caller's. *)
Lemma queryClaudeSDK_begin_sink (command : string) (options : Options) (ws : Sink)
  (spawn_throws : option string) (w : World) :
  let q := (queryClaudeSDK_begin path_join cwd_throws command options ws spawn_throws w).2 in
  Query.options q = options
  /\ Query.command q = command
  /\ Query.capturedSessionId q = JString <$> sessionId options
  /\ bound (Query.ws q) = bound ws
  /\ has_setSessionId (Query.ws q) = has_setSessionId ws
  /\ (sent (Query.ws q) = sent ws
      \/ exists message, sent (Query.ws q) = sent ws ++ [ClaudeError message]).
Proof.
  destruct spawn_throws as [message|].
  - unfold queryClaudeSDK_begin.
    destruct (handleImages _ _ _ _ _) as [w0 staged]. unfold catch_path. simpl.
    repeat split; eauto.
  - destruct (queryClaudeSDK_begin_spawned command options ws w)
      as (w1 & staged & key & now & -> & _).
    simpl. repeat split; auto.
Qed.

(** The invariant behind C6, over any run of events from any state. *)
Lemma foldl_deliver_created (events : list proc_event) (st : World * Query.t) :
  let q := st.2 in
  let q' := (foldl (deliver JSON_parse) st events).2 in
  (str_truthy (sessionId (Query.options q)) = true ->
     opt_truthy (Query.capturedSessionId q) = true) ->
  sent (Query.ws q) `prefix_of` sent (Query.ws q')
  /\ Query.options q' = Query.options q
  /\ (created q' = created q
      \/ (created q' = S (created q)
          /\ opt_truthy (Query.capturedSessionId q') = true
          /\ str_truthy (sessionId (Query.options q)) = false))
  /\ (opt_truthy (Query.capturedSessionId q) = true ->
      created q' = created q /\ opt_truthy (Query.capturedSessionId q') = true).
Proof.
  revert st. induction events as [|ev events IH]; intros st q q' Hsup; subst q q'.
  - simpl. repeat split; auto.
  - simpl. destruct (deliver_created st ev) as (Hp & Ho & Hc & Ht).
    specialize (IH (deliver JSON_parse st ev)). simpl in IH.
    rewrite Ho in IH.
    destruct IH as (Hp' & Ho' & Hc' & Ht').
    { intros Hs. destruct Hc as [_|(_ & _ & Hcap & _)]; auto. }
    split; [by etrans|]. split; [done|].
    destruct Hc as [Hc|(Hc & Hno & Hcap & Hsid)].
    + rewrite Hc in *. split.
      * destruct Hc' as [?|(? & ? & ?)]; [by left|by right].
      * intros Hcap. apply Ht'. by apply Ht.
    + rewrite Hc in *. destruct (Ht' Hcap) as [Hsame Hcap']. split.
      * right. by rewrite Hsame.
      * intros Hyes. congruence.
Qed.

(** C6: over the whole run of a request, whatever the events of its
    process and whether or not [spawn] throws, the sink is sent at most one
    [session-created] event; and when the caller supplied a (non-empty)
    session id it is sent none. *)
Theorem session_created_at_most_once (command : string) (options : Options)
  (ws : Sink) (spawn_throws : option string) (events : list proc_event) (w : World) :
  let q := (queryClaudeSDK JSON_parse path_join cwd_throws command options ws spawn_throws
              events w).2 in
  exists new,
    sent (Query.ws q) = sent ws ++ new
    /\ (count_session_created new <= 1)%nat
    /\ (str_truthy (sessionId options) = true -> count_session_created new = 0%nat).
Proof.
  intros q. subst q. unfold queryClaudeSDK.
  destruct (queryClaudeSDK_begin_sink command options ws spawn_throws w)
    as (Ho & _ & Hcap & _ & _ & Hsent).
  set (st := queryClaudeSDK_begin path_join cwd_throws command options ws spawn_throws w) in *.
  assert (str_truthy (sessionId options) = true ->
          opt_truthy (Query.capturedSessionId st.2) = true) as Hsup.
  { rewrite Hcap. by destruct (sessionId options) as [[|c s]|]. }
  destruct (foldl_deliver_created events st) as (Hp & _ & Hc & Ht).
  { by rewrite Ho. }
  rewrite Ho in Hc.
  assert (created st.2 = count_session_created (sent ws)) as Hst.
  { unfold created. destruct Hsent as [->|[m ->]]; [done|].
    rewrite count_session_created_snoc. simpl. lia. }
  assert (sent ws `prefix_of` sent (Query.ws st.2)) as Hp0.
  { destruct Hsent as [->|[m ->]]; [done|by apply prefix_app_r]. }
  destruct (transitivity Hp0 Hp) as [new Hnew].
  exists new. split; [done|].
  unfold created in Hc, Ht, Hst. rewrite Hnew, count_session_created_app in Hc, Ht.
  unfold created in Hst. rewrite Hst in Hc, Ht.
  split.
  - destruct Hc as [Hc|(Hc & _)]; lia.
  - intros Hs. destruct (Ht (Hsup Hs)) as [Ht' _]. lia.
Qed.

(** No handler writes the fields fixed at the start of the request. *)
Lemma deliver_same_request (st : World * Query.t) (ev : proc_event) :
  same_request st.2 (deliver JSON_parse st ev).2.
Proof.
  unfold deliver. destruct (Query.claudeProcess st.2); [|apply same_request_refl].
  destruct ev as [line|chunk|code|message];
    (eapply same_request_trans; [|apply resume_sink]).
  - apply on_line_control.
  - apply on_stderr_quiet.
  - apply on_close_quiet.
  - apply on_error_quiet.
Qed.

(** ** The request: output, then the end of the process *)

Lemma append_nil_r (s : string) : s +:+ "" = s.
Proof.
  induction s as [|c s IH]; [done|].
  change (String c (s +:+ "") = String c s). by rewrite IH.
Qed.

Lemma append_assoc (s1 s2 s3 : string) : (s1 +:+ s2) +:+ s3 = s1 +:+ s2 +:+ s3.
Proof.
  induction s1 as [|c s1 IH]; [done|].
  change (String c ((s1 +:+ s2) +:+ s3) = String c (s1 +:+ s2 +:+ s3)).
  by rewrite IH.
Qed.

Lemma resume_waiting (st : World * Query.t) :
  Query.result st.2 = Running -> Query.settled st.2 = Pending -> resume st = st.
Proof. destruct st as [w q]. unfold resume. simpl. by intros -> ->. Qed.

(** While the process only writes, the request keeps waiting, the error
    text accumulates and the disk is left alone. *)
Lemma foldl_deliver_outputs (events : list proc_event) (st : World * Query.t) :
  waiting st.2 -> Forall is_output events ->
  let st' := foldl (deliver JSON_parse) st events in
  waiting st'.2
  /\ same_request st.2 st'.2
  /\ Query.stderrBuffer st'.2 = Query.stderrBuffer st.2 +:+ stderr_text events
  /\ disk st'.1 = disk st.1
  /\ store st'.1 = store st.1.
Proof.
  revert st. induction events as [|ev events IH]; intros st Hw Hall; simpl.
  - rewrite append_nil_r. repeat split; try apply Hw; done.
  - apply Forall_cons in Hall as [Hev Hall].
    destruct Hw as (Hr & Hs & [pid Hp]).
    assert (let st1 := deliver JSON_parse st ev in
            waiting st1.2 /\ same_request st.2 st1.2
            /\ Query.stderrBuffer st1.2 =
               Query.stderrBuffer st.2 +:+ stderr_text [ev]
            /\ disk st1.1 = disk st.1 /\ store st1.1 = store st.1)
      as (Hw1 & Hsame1 & Herr1 & Hd1 & Hst1).
    { unfold deliver. rewrite Hp. destruct ev as [line|chunk| |]; try done.
      - destruct (on_line_control line st) as (Hsame & Hs' & Hr' & He' & Hd' & Hst').
        rewrite resume_waiting by congruence.
        assert (is_Some (Query.claudeProcess (on_line JSON_parse line st).2)).
        { destruct Hsame as (_ & _ & _ & _ & _ & -> & _). by rewrite Hp. }
        simpl. rewrite append_nil_r.
        split; [by split; [congruence|split; [congruence|]]|].
        split; [exact Hsame|]. split; [congruence|]. by split.
      - destruct (on_stderr_quiet chunk st) as (_ & _ & Hsame & Hs' & Hr' & Hw').
        rewrite resume_waiting by congruence.
        assert (is_Some (Query.claudeProcess (on_stderr chunk st).2)).
        { destruct Hsame as (_ & _ & _ & _ & _ & -> & _). by rewrite Hp. }
        rewrite Hw'. simpl. rewrite append_nil_r.
        split; [by split; [congruence|split; [congruence|]]|].
        split; [exact Hsame|]. split; [by destruct st|]. by split. }
    destruct (IH (deliver JSON_parse st ev) Hw1 Hall) as (Hw2 & Hsame2 & Herr2 & Hd2 & Hst2).
    split; [done|]. split; [by eapply same_request_trans|].
    split; [|split; congruence].
    rewrite Herr2, Herr1, append_assoc. f_equal.
    destruct ev; simpl; try done. by rewrite append_nil_r.
Qed.

(** The process closes with code 0 while the request waits: the entry goes,
    cleanup runs and the completion event is sent. *)
Lemma deliver_close_zero (w : World) (q : Query.t) :
  waiting q ->
  let st' := deliver JSON_parse (w, q) (Close (Some 0)) in
  Query.result st'.2 = Returned
  /\ sent (Query.ws st'.2) =
       sent (Query.ws q) ++
         [ClaudeComplete (Query.capturedSessionId q) 0
            (negb (str_truthy (sessionId (Query.options q)))
             && negb (String.eqb (Query.command q) ""))]
  /\ bound (Query.ws st'.2) = bound (Query.ws q)
  /\ activeSessions st'.1 =
       match registry_key q with
       | Some k => delete k (activeSessions w)
       | None => activeSessions w
       end
  /\ disk st'.1 =
       cleanupTempFiles (Some (Query.tempImagePaths q)) (Query.tempDir q) (disk w).
Proof.
  intros (Hr & Hs & [pid Hp]). unfold deliver, on_close, settle, resume, registry_key.
  simpl. rewrite Hp, Hs. simpl. rewrite Hr. simpl.
  repeat split; try done;
    by destruct (if opt_truthy _ then _ else Query.processSessionId q).
Qed.

(** The process closes with another code, or on a signal: the entry goes,
    cleanup runs, the error event is sent and the request throws. *)
Lemma deliver_close_failure (w : World) (q : Query.t) (code : option Z) :
  waiting q -> code <> Some 0 ->
  let st' := deliver JSON_parse (w, q) (Close code) in
  let message :=
    "Claude exited with code " +:+ show_code code +:+ ": " +:+ Query.stderrBuffer q in
  Query.result st'.2 = Threw message
  /\ sent (Query.ws st'.2) = sent (Query.ws q) ++ [ClaudeError message]
  /\ bound (Query.ws st'.2) = bound (Query.ws q)
  /\ activeSessions st'.1 =
       match registry_key q with
       | Some k => delete k (activeSessions w)
       | None => activeSessions w
       end
  /\ disk st'.1 =
       cleanupTempFiles (Some (Query.tempImagePaths q)) (Query.tempDir q) (disk w).
Proof.
  intros (Hr & Hs & [pid Hp]) Hcode.
  unfold deliver, on_close, settle, resume, registry_key, catch_path.
  simpl. rewrite Hp, Hs.
  assert (forall (A : Type) (a b : A),
    match code with Some 0 => a | _ => b end = b) as Hsel.
  { intros A a b. destruct code as [[| |]|]; done. }
  rewrite Hsel. simpl. rewrite Hr. simpl.
  repeat split; try done.
  - destruct (Query.capturedSessionId q) as [id|] eqn:Hcap; simpl.
    + destruct (truthy id); simpl; [by rewrite delete_delete_eq|].
      by destruct (Query.processSessionId q).
    + by destruct (Query.processSessionId q).
  - destruct (Query.capturedSessionId q) as [id|] eqn:Hcap; simpl.
    + destruct (truthy id); simpl; [done|]. by destruct (Query.processSessionId q).
    + by destruct (Query.processSessionId q).
Qed.

(** C4: when the process was spawned, wrote whatever lines and error text
    and then closed with a code other than 0, the request ends by throwing
    an error whose message holds both the code, in decimal, and all the
    error text captured; and the last thing the sink was sent before that is
    the error event with this very message. *)
Theorem nonzero_exit_is_reported (command : string) (options : Options) (ws : Sink)
  (events : list proc_event) (code : Z) (w : World) :
  Forall is_output events -> code <> 0 ->
  let q := (queryClaudeSDK JSON_parse path_join cwd_throws command options ws None
              (events ++ [Close (Some code)]) w).2 in
  exists message,
    Query.result q = Threw message
    /\ contains message (pretty code)
    /\ contains message (stderr_text events)
    /\ last (sent (Query.ws q)) = Some (ClaudeError message).
Proof.
  intros Hout Hcode q. subst q. unfold queryClaudeSDK.
  destruct (queryClaudeSDK_begin_spawned command options ws w)
    as (w1 & staged & key & now & -> & _).
  rewrite foldl_app. simpl.
  destruct (foldl_deliver_outputs events
              (w1, started command options ws staged key (length (children w))))
    as (Hw & _ & Herr & _); [by repeat split; eauto|done|].
  destruct (foldl (deliver JSON_parse) _ events) as [w2 q2]. simpl in *.
  destruct (deliver_close_failure w2 q2 (Some code) Hw) as (Hres & Hsent & _).
  { intros [= ->]. done. }
  eexists. split; [exact Hres|]. rewrite Hsent, last_snoc, Herr. simpl.
  split; [|split; [|done]].
  - exists "Claude exited with code ", (": " +:+ stderr_text events). reflexivity.
  - exists ("Claude exited with code " +:+ pretty code +:+ ": "), "".
    rewrite append_nil_r, !append_assoc. reflexivity.
Qed.

(** ** The line handler, case by case *)

Lemma deliver_line_waiting (line : string) (st : World * Query.t) :
  waiting st.2 ->
  deliver JSON_parse st (Line line) = on_line JSON_parse line st
  /\ waiting (on_line JSON_parse line st).2.
Proof.
  intros (Hr & Hs & [pid Hp]). unfold deliver. rewrite Hp.
  destruct (on_line_control line st) as (Hsame & Hs' & Hr' & _).
  rewrite resume_waiting by congruence. split; [done|].
  split; [congruence|]. split; [congruence|].
  destruct Hsame as (_ & _ & _ & _ & _ & -> & _). by rewrite Hp.
Qed.

(** A line whose record brings the first session id: the id is captured,
    the entry rekeyed, the sink bound, [session-created] sent if the caller
    gave no id, and the record passed on. *)
Lemma on_line_capture (line : string) (w : World) (q : Query.t)
  (message id p : json) :
  is_blank line = false ->
  JSON_parse line = Some message ->
  session_id_of message = Some (Some id) ->
  truthy id = true ->
  opt_truthy (Query.capturedSessionId q) = false ->
  Query.processSessionId q = Some p ->
  on_line JSON_parse line (w, q) =
    (with_activeSessions (rekey p id (activeSessions w)) w,
     let q1 :=
       Query.with_ws (setSessionId id (Query.ws q))
         (Query.with_capturedSessionId (Some id) q) in
     let q2 :=
       if negb (str_truthy (sessionId (Query.options q)))
          && negb (Query.sessionCreatedSent q)
       then Query.with_ws (send (SessionCreated id) (Query.ws q1))
              (Query.with_sessionCreatedSent true q1)
       else q1 in
     Query.with_ws (send (ClaudeResponse message) (Query.ws q2)) q2).
Proof.
  intros Hb Hparse Hsid Hid Hcap Hp. unfold on_line.
  rewrite Hb, Hparse, Hsid. simpl. rewrite Hid, Hcap. simpl. rewrite Hp.
  by destruct (negb (str_truthy _) && negb _).
Qed.

(** A line whose record brings no id, or a later one: it is passed on and
    nothing else happens. *)
Lemma on_line_passthrough (line : string) (w : World) (q : Query.t)
  (message : json) (session_id : option json) :
  is_blank line = false ->
  JSON_parse line = Some message ->
  session_id_of message = Some session_id ->
  opt_truthy session_id && negb (opt_truthy (Query.capturedSessionId q)) = false ->
  on_line JSON_parse line (w, q) =
    (w, Query.with_ws (send (ClaudeResponse message) (Query.ws q)) q).
Proof.
  intros Hb Hparse Hsid Hno. unfold on_line.
  rewrite Hb, Hparse, Hsid. by rewrite Hno.
Qed.

Lemma not_supplied_not_captured (o : Options) :
  str_truthy (sessionId o) = false -> opt_truthy (JString <$> sessionId o) = false.
Proof. by destruct (sessionId o) as [[|c s]|]. Qed.

(** C7: a request with no session id from the caller and a non-empty
    prompt, whose process writes the system line carrying [session_id] abc,
    then the result line, then closes with code 0, sends the sink exactly
    four events, in this order: session-created with abc, the system record,
    the result record, and the completion with abc, code 0 and
    [isNewSession] true.  The two hypotheses on [JSON_parse] say what
    [JSON.parse] reads in the two lines. *)
Theorem sample_stream_events (command : string) (options : Options) (ws : Sink)
  (w : World) :
  JSON_parse line_system = Some message_system ->
  JSON_parse line_result = Some message_result ->
  str_truthy (sessionId options) = false ->
  command <> "" ->
  sent ws = [] ->
  let q := (queryClaudeSDK JSON_parse path_join cwd_throws command options ws None
              [Line line_system; Line line_result; Close (Some 0)] w).2 in
  sent (Query.ws q) =
    [SessionCreated (JString "abc");
     ClaudeResponse message_system;
     ClaudeResponse message_result;
     ClaudeComplete (Some (JString "abc")) 0 true]
  /\ Query.result q = Returned.
Proof.
  intros Hp1 Hp2 Hsid Hcmd Hsent q. subst q. unfold queryClaudeSDK.
  destruct (queryClaudeSDK_begin_spawned command options ws w)
    as (w1 & staged & key & now & -> & _).
  simpl foldl.
  set (q0 := started command options ws staged key (length (children w))).
  assert (waiting q0) as Hw0 by (by repeat split; eauto).
  destruct (deliver_line_waiting line_system (w1, q0) Hw0) as [-> Hw1].
  pose proof (on_line_capture line_system w1 q0 message_system (JString "abc") key
                eq_refl Hp1 eq_refl eq_refl
                (not_supplied_not_captured options Hsid) eq_refl) as E1.
  rewrite E1 in Hw1 |- *. clear E1.
  set (st1 := (_, _)) in Hw1 |- *.
  destruct (deliver_line_waiting line_result st1 Hw1) as [-> Hw2].
  subst st1.
  pose proof (fun w q => on_line_passthrough line_result w q message_result None
                eq_refl Hp2 eq_refl eq_refl) as E2.
  rewrite E2 in Hw2 |- *. clear E2.
  set (w2 := with_activeSessions _ _) in Hw2 |- *.
  set (q2 := Query.with_ws _ _) in Hw2 |- *.
  destruct (deliver_close_zero w2 q2 Hw2) as (Hres & Hs & _).
  split; [|exact Hres].
  rewrite Hs. subst q2 q0. simpl. rewrite Hsid. simpl.
  unfold setSessionId. destruct (has_setSessionId ws); simpl; rewrite Hsent; simpl.
  all: apply String.eqb_neq in Hcmd; by rewrite Hsid, Hcmd.
Qed.

(** ** Rekeying *)

(** C5: when a line brings the real id of a session that is registered
    under its provisional key, and under no other, the handler leaves the
    same session object bound under the real id and under no other key: the
    provisional key is unbound (unless the process reported that very
    string as its id), no other entry is touched, and at each moment of the
    change (before it, after the [delete], after the [set]) the session has
    at most one key, so the old entry and the new one are never both
    there. *)
Theorem capture_rekeys_entry (line : string) (w : World) (q : Query.t)
  (message id p : json) (session : nat) :
  is_blank line = false ->
  JSON_parse line = Some message ->
  session_id_of message = Some (Some id) ->
  truthy id = true ->
  opt_truthy (Query.capturedSessionId q) = false ->
  Query.processSessionId q = Some p ->
  activeSessions w !! p = Some session ->
  one_key session (activeSessions w) ->
  let st' := on_line JSON_parse line (w, q) in
  Query.capturedSessionId st'.2 = Some id
  /\ (forall k, activeSessions st'.1 !! k = Some session <-> k = id)
  /\ (id <> p -> activeSessions st'.1 !! p = None)
  /\ (forall k, k <> p -> k <> id -> activeSessions st'.1 !! k = activeSessions w !! k)
  /\ store st'.1 = store w
  /\ rekey_steps p id (activeSessions w) =
       [delete p (activeSessions w); activeSessions st'.1]
  /\ Forall (one_key session)
       (activeSessions w :: rekey_steps p id (activeSessions w)).
Proof.
  intros Hb Hparse Hsid Hid Hcap Hp Hreg Hone st'. subst st'.
  rewrite (on_line_capture line w q message id p) by done.
  unfold rekey, rekey_steps. rewrite Hreg. simpl.
  set (m := activeSessions w) in *.
  assert (forall k, delete p m !! k <> Some session) as Hgone.
  { intros k Hk. apply lookup_delete_Some in Hk as [Hne Hk].
    apply Hne. symmetry. by apply (Hone k p). }
  assert (forall k, <[id:=session]> (delete p m) !! k = Some session <-> k = id)
    as Honly.
  { intros k. rewrite lookup_insert_Some. split.
    - intros [[-> _]|[_ Hk]]; [done|]. by apply Hgone in Hk.
    - intros ->. by left. }
  split; [by destruct (negb _ && negb _)|].
  split; [exact Honly|].
  split; [intros Hne; rewrite lookup_insert_ne by done; apply lookup_delete_eq|].
  split; [intros k Hkp Hki; rewrite lookup_insert_ne by done;
          by rewrite lookup_delete_ne|].
  split; [done|]. split; [done|].
  constructor; [exact Hone|]. constructor; [|constructor; [|constructor]].
  - intros k1 k2 Hk1 _. by apply Hgone in Hk1.
  - intros k1 k2 Hk1 Hk2. apply Honly in Hk1, Hk2. congruence.
Qed.

(** ** A request that resumes a session *)

(** With an id already captured, a line changes nothing but the list of
    events sent, to which it adds the record or the wrapped text. *)
Lemma on_line_captured (line : string) (st : World * Query.t) :
  opt_truthy (Query.capturedSessionId st.2) = true ->
  let st' := on_line JSON_parse line st in
  st'.1 = st.1
  /\ Query.capturedSessionId st'.2 = Query.capturedSessionId st.2
  /\ bound (Query.ws st'.2) = bound (Query.ws st.2)
  /\ (Query.ws st'.2 = Query.ws st.2
      \/ exists data, sent (Query.ws st'.2) = sent (Query.ws st.2) ++ [ClaudeResponse data]).
Proof.
  destruct st as [w q]. simpl. intros Hcap. unfold on_line, send_text.
  repeat case_match; simplify_eq/=;
    try match goal with
        | H : _ && negb _ = true |- _ =>
            rewrite Hcap, andb_false_r in H; discriminate H
        end;
    repeat split; eauto.
Qed.

Lemma at_most_removed_refl (k : json) (m : gmap json nat) : at_most_removed k m m.
Proof. by left. Qed.

Lemma at_most_removed_delete (k : json) (m m' : gmap json nat) :
  at_most_removed k m m' -> at_most_removed k m (delete k m').
Proof. intros [->| ->]; right; [done|by rewrite delete_delete_eq]. Qed.

Lemma at_most_removed_trans (k : json) (m1 m2 m3 : gmap json nat) :
  at_most_removed k m1 m2 -> at_most_removed k m2 m3 -> at_most_removed k m1 m3.
Proof.
  intros H [->| ->]; [done|]. by apply at_most_removed_delete.
Qed.

(** What follows the [await], for a request whose id is [id] from the
    start. *)
Lemma resume_captured (st : World * Query.t) (id : json) :
  Query.capturedSessionId st.2 = Some id -> truthy id = true ->
  str_truthy (sessionId (Query.options st.2)) = true ->
  let st' := resume st in
  Query.capturedSessionId st'.2 = Some id
  /\ bound (Query.ws st'.2) = bound (Query.ws st.2)
  /\ at_most_removed id (activeSessions st.1) (activeSessions st'.1)
  /\ exists new,
       sent (Query.ws st'.2) = sent (Query.ws st.2) ++ new
       /\ Forall (resumed_event id) new.
Proof.
  destruct st as [w q]. simpl. intros Hcap Hid Hsup.
  unfold resume, catch_path, success_path, cleanup_request, at_most_removed.
  destruct (Query.result q), (Query.settled q); simpl;
    rewrite ?Hcap, ?Hid, ?Hsup; simpl.
  all: split; [done|]; split; [done|]; split; [auto|].
  all: try (exists []; split; [by rewrite app_nil_r|constructor]).
  - eexists [_]. split; [done|]. by repeat constructor.
  - eexists [_]. split; [done|]. by repeat constructor.
Qed.

(** One event in the life of a request whose id is [id] from the start. *)
Lemma deliver_captured (st : World * Query.t) (ev : proc_event) (id : json) :
  Query.capturedSessionId st.2 = Some id -> truthy id = true ->
  str_truthy (sessionId (Query.options st.2)) = true ->
  let st' := deliver JSON_parse st ev in
  Query.capturedSessionId st'.2 = Some id
  /\ bound (Query.ws st'.2) = bound (Query.ws st.2)
  /\ at_most_removed id (activeSessions st.1) (activeSessions st'.1)
  /\ exists new,
       sent (Query.ws st'.2) = sent (Query.ws st.2) ++ new
       /\ Forall (resumed_event id) new.
Proof.
  intros Hcap Hid Hsup st'. subst st'. unfold deliver.
  destruct (Query.claudeProcess st.2).
  2:{ split; [done|]. split; [done|]. split; [by left|].
      exists []. split; [by rewrite app_nil_r|constructor]. }
  assert (opt_truthy (Query.capturedSessionId st.2) = true) as Ht
    by (by rewrite Hcap).
  destruct ev as [line|chunk|code|message].
  - destruct (on_line_captured line st Ht) as (Hw & Hc & Hb & Hs).
    destruct (on_line_control line st) as ((_ & Ho & _) & _).
    destruct (resume_captured (on_line JSON_parse line st) id)
      as (Hc' & Hb' & Hm & new & Hn & Hall); [congruence|done|congruence|].
    rewrite Hw in Hm. split; [done|]. split; [congruence|]. split; [done|].
    destruct Hs as [Hs|[d Hs]].
    + exists new. by rewrite Hn, Hs.
    + exists (ClaudeResponse d :: new). rewrite Hn, Hs, <- app_assoc.
      split; [done|]. by constructor.
  - destruct (on_stderr_quiet chunk st) as (Hws & Hc & (_ & Ho & _) & _ & _ & Hw).
    destruct (resume_captured (on_stderr chunk st) id)
      as (Hc' & Hb' & Hm & new & Hn & Hall); [congruence|done|congruence|].
    rewrite Hw in Hm. rewrite Hws in Hb', Hn.
    do 3 (split; [done|]). by exists new.
  - destruct (on_close_quiet code st) as (Hws & Hc & (_ & Ho & _) & _).
    destruct (resume_captured (on_close code st) id)
      as (Hc' & Hb' & Hm & new & Hn & Hall); [congruence|done|congruence|].
    rewrite Hws in Hb', Hn. split; [done|]. split; [done|]. split; [|by exists new].
    eapply at_most_removed_trans; [|exact Hm].
    destruct st as [w q]. unfold on_close. simpl in *. rewrite Ht, Hcap.
    destruct code as [[| |]|]; by right.
  - destruct (on_error_quiet message st) as (Hws & Hc & (_ & Ho & _) & _ & Hw).
    destruct (resume_captured (on_error message st) id)
      as (Hc' & Hb' & Hm & new & Hn & Hall); [congruence|done|congruence|].
    rewrite Hw in Hm. rewrite Hws in Hb', Hn.
    do 3 (split; [done|]). by exists new.
Qed.

(** The same over any run of events. *)
Lemma foldl_deliver_captured (events : list proc_event) (st : World * Query.t)
  (id : json) :
  Query.capturedSessionId st.2 = Some id -> truthy id = true ->
  str_truthy (sessionId (Query.options st.2)) = true ->
  let st' := foldl (deliver JSON_parse) st events in
  Query.capturedSessionId st'.2 = Some id
  /\ bound (Query.ws st'.2) = bound (Query.ws st.2)
  /\ at_most_removed id (activeSessions st.1) (activeSessions st'.1)
  /\ same_request st.2 st'.2
  /\ exists new,
       sent (Query.ws st'.2) = sent (Query.ws st.2) ++ new
       /\ Forall (resumed_event id) new.
Proof.
  revert st. induction events as [|ev events IH]; intros st Hcap Hid Hsup; simpl.
  - split; [done|]. split; [done|]. split; [by left|].
    split; [apply same_request_refl|].
    exists []. split; [by rewrite app_nil_r|constructor].
  - destruct (deliver_captured st ev id Hcap Hid Hsup)
      as (Hc1 & Hb1 & Hm1 & new1 & Hn1 & Hall1).
    pose proof (deliver_same_request st ev) as Hsame1.
    destruct (IH (deliver JSON_parse st ev))
      as (Hc2 & Hb2 & Hm2 & Hsame2 & new2 & Hn2 & Hall2); [done|done| |].
    { destruct Hsame1 as (_ & -> & _). done. }
    split; [done|]. split; [congruence|].
    split; [by eapply at_most_removed_trans|].
    split; [by eapply same_request_trans|].
    exists (new1 ++ new2). rewrite Hn2, Hn1, <- app_assoc. split; [done|].
    by apply Forall_app.
Qed.

(** While the process only writes, a request with a captured id leaves the
    world as it is. *)
Lemma foldl_deliver_outputs_captured (events : list proc_event)
  (st : World * Query.t) :
  waiting st.2 -> opt_truthy (Query.capturedSessionId st.2) = true ->
  Forall is_output events ->
  (foldl (deliver JSON_parse) st events).1 = st.1.
Proof.
  revert st. induction events as [|ev events IH]; intros st Hw Ht Hall; [done|].
  apply Forall_cons in Hall as [Hev Hall]. simpl.
  destruct (foldl_deliver_outputs [ev] st Hw) as (Hw1 & _); [by constructor|].
  simpl in Hw1.
  assert ((deliver JSON_parse st ev).1 = st.1
          /\ Query.capturedSessionId (deliver JSON_parse st ev).2 =
             Query.capturedSessionId st.2) as [Hworld Hcap].
  { destruct ev as [line|chunk| |]; try done.
    - destruct (deliver_line_waiting line st Hw) as [-> _].
      by destruct (on_line_captured line st Ht) as (? & ? & _).
    - destruct Hw as (Hr & Hs & [pid Hp]). unfold deliver. rewrite Hp.
      destruct (on_stderr_quiet chunk st) as (_ & Hc & _ & Hs' & Hr' & Hw').
      rewrite resume_waiting by congruence. done. }
  rewrite IH; [done|done| |done]. by rewrite Hcap.
Qed.

(** C10: when the caller supplies a (non-empty) session id, the entry of
    the request is registered under that id, and whatever the process then
    writes or however it ends, no line rekeys it: the request goes on
    expecting its entry under the caller's id, every other key of the
    registry is left as it was, and while the process only writes the
    registry does not change at all.  The sink is never bound to an id, is
    sent no session-created event, and every completion event it is sent
    carries the caller's id; in particular, when the process closes with
    code 0 after its output, the last event is that completion and the
    entry under the caller's id is removed.  All this holds whatever
    [session_id] the lines of the process report. *)
Theorem supplied_id_keeps_its_key (command : string) (options : Options) (ws : Sink)
  (events : list proc_event) (w : World) (id : string) :
  sessionId options = Some id -> id <> "" ->
  let st1 := queryClaudeSDK_begin path_join cwd_throws command options ws None w in
  let st' := queryClaudeSDK JSON_parse path_join cwd_throws command options ws None events w in
  Query.processSessionId st1.2 = Some (JString id)
  /\ activeSessions st1.1 = <[JString id := length (store w)]> (activeSessions w)
  /\ Query.processSessionId st'.2 = Some (JString id)
  /\ Query.capturedSessionId st'.2 = Some (JString id)
  /\ (forall k, k <> JString id -> activeSessions st'.1 !! k = activeSessions st1.1 !! k)
  /\ (Forall is_output events -> activeSessions st'.1 = activeSessions st1.1)
  /\ bound (Query.ws st'.2) = bound ws
  /\ (exists new, sent (Query.ws st'.2) = sent ws ++ new
                  /\ Forall (resumed_event (JString id)) new)
  /\ (forall output, events = output ++ [Close (Some 0)] -> Forall is_output output ->
      last (sent (Query.ws st'.2)) = Some (ClaudeComplete (Some (JString id)) 0 false)
      /\ activeSessions st'.1 = delete (JString id) (activeSessions st1.1)).
Proof.
  intros Hid Hne st1 st'. subst st1 st'. unfold queryClaudeSDK.
  destruct (queryClaudeSDK_begin_spawned command options ws w)
    as (w1 & staged & key & now & -> & _ & Hkey & _ & Hreg & _).
  rewrite (Hkey id Hid Hne) in *. clear Hkey.
  set (q1 := started command options ws staged (JString id) (length (children w))).
  assert (Query.capturedSessionId q1 = Some (JString id)) as Hcap
    by (subst q1; simpl; by rewrite Hid).
  assert (truthy (JString id) = true) as Ht by (by destruct id).
  assert (str_truthy (sessionId (Query.options q1)) = true) as Hsup
    by (subst q1; simpl; rewrite Hid; by destruct id).
  assert (waiting q1) as Hw1 by (by repeat split; eauto).
  destruct (foldl_deliver_captured events (w1, q1) (JString id) Hcap Ht Hsup)
    as (Hc & Hb & Hm & Hsame & new & Hn & Hall).
  simpl in Hm, Hb, Hn.
  split; [done|]. split; [done|].
  split; [by destruct Hsame as (_ & _ & _ & _ & -> & _)|].
  split; [done|].
  split; [intros k Hk; destruct Hm as [->| ->]; [done|by rewrite lookup_delete_ne]|].
  split.
  { intros Hout.
    rewrite (foldl_deliver_outputs_captured events (w1, q1)); [done|done| |done].
    change (opt_truthy (Query.capturedSessionId q1) = true). by rewrite Hcap. }
  split; [done|]. split; [by eauto|].
  intros output -> Hout. rewrite foldl_app. simpl.
  destruct (foldl_deliver_outputs output (w1, q1) Hw1 Hout)
    as (Hw2 & Hsame2 & _).
  assert ((foldl (deliver JSON_parse) (w1, q1) output).1 = w1) as Hworld.
  { apply (foldl_deliver_outputs_captured output (w1, q1)); [done| |done].
    change (opt_truthy (Query.capturedSessionId q1) = true). by rewrite Hcap. }
  destruct (foldl_deliver_captured output (w1, q1) (JString id) Hcap Ht Hsup)
    as (Hc2 & _).
  destruct (foldl (deliver JSON_parse) (w1, q1) output) as [w2 q2].
  simpl in Hworld, Hc2, Hw2, Hsame2. subst w2.
  destruct (deliver_close_zero w1 q2 Hw2) as (_ & Hs & _ & Hreg2 & _).
  rewrite Hs, last_snoc, Hc2. unfold registry_key, opt_truthy in Hreg2.
  rewrite Hc2, Ht in Hreg2.
  split; [|done].
  destruct Hsame2 as (_ & -> & _). simpl. rewrite Hid. by destruct id.
Qed.

(** ** Abort *)

Lemma get_session_Some (id : json) (w : World) (ref : nat) (session : Session.t) :
  get_session id w = Some (ref, session) <->
  activeSessions w !! id = Some ref /\ store w !! ref = Some session.
Proof.
  unfold get_session. destruct (activeSessions w !! id) as [r|]; [|naive_solver].
  destruct (store w !! r) eqn:E; naive_solver.
Qed.

(** No event of the process touches the session objects. *)
Lemma deliver_store (st : World * Query.t) (ev : proc_event) :
  store (deliver JSON_parse st ev).1 = store st.1.
Proof.
  unfold deliver. destruct (Query.claudeProcess st.2); [|done].
  assert (forall st1 : World * Query.t, store (resume st1).1 = store st1.1) as Hres.
  { intros [w1 q1]. unfold resume, success_path, catch_path, cleanup_request.
    destruct (Query.result q1), (Query.settled q1); simpl; try done.
    destruct (Query.capturedSessionId q1) as [id|]; [|done]. by destruct (truthy id). }
  rewrite Hres. destruct ev as [line|chunk|code|message].
  - apply on_line_control.
  - by destruct (on_stderr_quiet chunk st) as (_ & _ & _ & _ & _ & ->).
  - destruct st as [w q]. unfold on_close. simpl.
    by destruct (if opt_truthy _ then _ else _), code as [[| |]|].
  - by destruct (on_error_quiet message st) as (_ & _ & _ & _ & ->).
Qed.



(** ** Attachment staging when nothing fails *)

Lemma write_images_all (tempDir : string) (imgs : list Image) :
  forall index paths d,
  Forall (fun image => is_Some (data image)) imgs ->
  (forall p, denied d p = false) ->
  exists d',
    write_images path_join tempDir index imgs paths d =
      (d', paths ++ ((fun name => path_join [tempDir; name]) <$> staged_names index imgs),
       true)
    /\ denied d' = denied d /\ dirs d' = dirs d.
Proof.
  induction imgs as [|image rest IH]; intros index paths d Hall Hden; simpl.
  - exists d. by rewrite app_nil_r.
  - apply Forall_cons in Hall as [[uri Huri] Hall]. rewrite Huri. simpl.
    destruct (match_data_uri uri) as [[mimeType base64Data]|]; [|by apply IH].
    unfold writeFile. rewrite Hden.
    edestruct (IH (S index)) as (d' & -> & Hd' & Hdirs); [done|exact Hden|].
    exists d'. rewrite <- app_assoc. done.
Qed.

(** X3: when every attachment carries a string, the disk refuses nothing
    and [process.cwd()], if the caller names no directory, does not throw,
    [handleImages] makes the directory of the request, writes one
    file per attachment whose data match the pattern, named after the
    position of the attachment in the list and the extension of its media
    type, and skips the others.  It returns the paths of these files in
    order, the directory, and the prompt followed by the note that lists
    the paths, or the prompt alone when no file was written or the prompt
    is blank. *)
Theorem handleImages_stages_all (command : string) (imgs : list Image)
  (cwd : option string) (w : World) :
  imgs <> [] ->
  Forall (fun image => is_Some (data image)) imgs ->
  (forall p, denied (disk w) p = false) ->
  (str_truthy cwd = false -> cwd_throws = false) ->
  let staged := handleImages path_join cwd_throws command (Some imgs) cwd w in
  let tempDir :=
    path_join [if str_truthy cwd then default "" cwd else process_cwd w;
               ".tmp"; "images"; pretty (clock w (clock_reads w))] in
  let paths := (fun name => path_join [tempDir; name]) <$> staged_names 0 imgs in
  Staged.tempDir staged.2 = Some tempDir
  /\ Staged.tempImagePaths staged.2 = paths
  /\ Staged.modifiedCommand staged.2 =
       (if bool_decide (paths = []) || is_blank command then command
        else command +:+ imageNote paths)
  /\ tempDir ∈ dirs (disk staged.1)
  /\ (forall p, p ∈ paths -> p ∈ (fst <$> files (disk staged.1))).
Proof.
  intros Hne Hall Hden Hcwd staged tempDir paths. subst staged.
  assert (negb (str_truthy cwd) && cwd_throws = false) as Hearly.
  { destruct (str_truthy cwd); [done|]. by rewrite Hcwd. }
  unfold handleImages. destruct imgs as [|image rest]; [done|].
  unfold handleImages_try. rewrite Hearly.
  unfold Date_now, mkdir. cbv beta iota zeta. cbn [disk].
  fold tempDir. rewrite Hden.
  set (d0 := {| files := files (disk w) |}).
  destruct (write_images_all tempDir (image :: rest) 0 [] d0 Hall)
    as (d' & Hw & _ & Hdirs); [exact Hden|].
  change ([] ++ ?l) with l in Hw. fold paths in Hw. rewrite Hw.
  apply write_images_grows in Hw as (more & Hmore & _ & _ & _ & Hin).
  change ([] ++ more) with more in Hmore. subst more.
  assert (tempDir ∈ dirs d') as Hdir.
  { rewrite Hdirs. subst d0. simpl. case_bool_decide; [done|].
    apply elem_of_app. right. apply list_elem_of_here. }
  clearbody paths. destruct paths as [|p ps]; simpl; [done|].
  destruct (is_blank command); simpl; done.
Qed.

(** ** What reaches the sink *)

Lemma responses_snoc (l : list event) (e : event) :
  responses (l ++ [e]) =
  responses l ++ match e with ClaudeResponse d => [d] | _ => [] end.
Proof. unfold responses. rewrite omap_app. by destruct e. Qed.

Lemma terminals_snoc (l : list event) (e : event) :
  terminals (l ++ [e]) = terminals l ++ if is_terminal e then [e] else [].
Proof. unfold terminals. rewrite filter_app. by destruct e. Qed.

Lemma responses_resume (st : World * Query.t) :
  responses (sent (Query.ws (resume st).2)) = responses (sent (Query.ws st.2)).
Proof.
  destruct (resume_sink st) as (_ & _ & _ & _ & [H|[H|[m H]]]); rewrite H;
    [done|rewrite responses_snoc; apply app_nil_r..].
Qed.

(** A line adds its payload to the responses, unless it is blank, and no
    event that ends a request. *)
Lemma on_line_sent (line : string) (st : World * Query.t) :
  let q' := (on_line JSON_parse line st).2 in
  responses (sent (Query.ws q')) =
    responses (sent (Query.ws st.2))
    ++ (if is_blank line then [] else [forwarded_line JSON_parse line])
  /\ terminals (sent (Query.ws q')) = terminals (sent (Query.ws st.2)).
Proof.
  destruct st as [w q]. unfold on_line, forwarded_line, send_text, setSessionId, send.
  destruct (is_blank line); [simpl; by rewrite app_nil_r|].
  destruct (JSON_parse line) as [message|]; simpl;
    [|by rewrite responses_snoc, terminals_snoc, app_nil_r].
  destruct message; simpl;
    repeat case_match; simplify_eq/=;
    rewrite ?responses_snoc, ?terminals_snoc, ?app_nil_r; done.
Qed.

Lemma deliver_responses (st : World * Query.t) (ev : proc_event) :
  is_Some (Query.claudeProcess st.2) ->
  responses (sent (Query.ws (deliver JSON_parse st ev).2)) =
  responses (sent (Query.ws st.2)) ++ forwarded JSON_parse [ev].
Proof.
  intros [pid Hp]. unfold deliver. rewrite Hp, responses_resume.
  destruct ev as [line|chunk|code|message]; simpl.
  - destruct (on_line_sent line st) as [-> _]. by destruct (is_blank line).
  - destruct (on_stderr_quiet chunk st) as (-> & _). by rewrite app_nil_r.
  - destruct (on_close_quiet code st) as (-> & _). by rewrite app_nil_r.
  - destruct (on_error_quiet message st) as (-> & _). by rewrite app_nil_r.
Qed.

Lemma forwarded_app (events1 events2 : list proc_event) :
  forwarded JSON_parse (events1 ++ events2) =
  forwarded JSON_parse events1 ++ forwarded JSON_parse events2.
Proof.
  induction events1 as [|ev events1 IH]; [done|].
  destruct ev as [line| | |]; simpl; try done.
  destruct (is_blank line); simpl; by rewrite IH.
Qed.

Lemma foldl_deliver_responses (events : list proc_event) (st : World * Query.t) :
  is_Some (Query.claudeProcess st.2) ->
  responses (sent (Query.ws (foldl (deliver JSON_parse) st events).2)) =
  responses (sent (Query.ws st.2)) ++ forwarded JSON_parse events.
Proof.
  revert st. induction events as [|ev events IH]; intros st Hp.
  - simpl. by rewrite app_nil_r.
  - simpl foldl. rewrite IH.
    + rewrite (deliver_responses st ev Hp), <- app_assoc.
      by rewrite <- (forwarded_app [ev] events).
    + destruct (deliver_same_request st ev) as (_ & _ & _ & _ & _ & -> & _). done.
Qed.

(** X5: once the process is spawned, the responses sent to the sink are
    exactly the payloads of the non-blank lines, one per line and in the
    order of the lines: the record read in the line, or the line wrapped as
    a text message when it is not JSON.  Blank lines, error text, and the
    end of the process add no response, and lines that arrive after the end
    of the request are still passed on. *)
Theorem lines_are_forwarded_in_order (command : string) (options : Options)
  (ws : Sink) (events : list proc_event) (w : World) :
  let q := (queryClaudeSDK JSON_parse path_join cwd_throws command options ws None events w).2 in
  responses (sent (Query.ws q)) = responses (sent ws) ++ forwarded JSON_parse events.
Proof.
  intros q. subst q. unfold queryClaudeSDK.
  destruct (queryClaudeSDK_begin_spawned command options ws w)
    as (w1 & staged & key & now & -> & _).
  rewrite foldl_deliver_responses; [done|]. simpl. by eexists.
Qed.

(** ** The end of a request *)

Lemma resume_ended_once (before : list event) (st : World * Query.t) :
  match Query.result st.2 with
  | Running => terminals (sent (Query.ws st.2)) = terminals before
  | _ => ended_once before st.2
  end ->
  ended_once before (resume st).2.
Proof.
  destruct st as [w q]. unfold ended_once, resume, success_path, catch_path. simpl.
  destruct (Query.result q) eqn:Hr; simpl; rewrite ?Hr; try done.
  destruct (Query.settled q) eqn:Hs; simpl; rewrite ?Hr, ?Hs; intros H.
  - done.
  - rewrite terminals_snoc, H. simpl. eauto.
  - rewrite terminals_snoc, H. done.
Qed.

Lemma deliver_ended_once (before : list event) (st : World * Query.t)
  (ev : proc_event) :
  ended_once before st.2 -> ended_once before (deliver JSON_parse st ev).2.
Proof.
  intros H. unfold deliver. destruct (Query.claudeProcess st.2); [|done].
  apply resume_ended_once.
  destruct ev as [line|chunk|code|message].
  - destruct (on_line_sent line st) as [_ Ht].
    destruct (on_line_control line st) as (_ & Hs & Hr & _).
    unfold ended_once in *. rewrite Hr, Ht.
    destruct (Query.result st.2); [by destruct H|done..].
  - destruct (on_stderr_quiet chunk st) as (Hws & _ & _ & Hs & Hr & _).
    unfold ended_once in *. rewrite Hr, Hws.
    destruct (Query.result st.2); [by destruct H|done..].
  - destruct (on_close_quiet code st) as (Hws & _ & _ & Hr & _).
    unfold ended_once in *. rewrite Hr, Hws.
    destruct (Query.result st.2); [by destruct H|done..].
  - destruct (on_error_quiet message st) as (Hws & _ & _ & Hr & _).
    unfold ended_once in *. rewrite Hr, Hws.
    destruct (Query.result st.2); [by destruct H|done..].
Qed.

(** X6: whatever the process does, and whether or not [spawn] throws, a
    request sends at most one event that ends it.  While it is running it
    has sent none; once it has returned it has sent exactly one completion
    and no error; once it has thrown it has sent exactly one error event,
    whose message is the one thrown, and no completion.  Events that arrive
    after the end (a ['close'] after an ['error'], say) add none. *)
Theorem request_ends_once (command : string) (options : Options) (ws : Sink)
  (spawn_throws : option string) (events : list proc_event) (w : World) :
  let q := (queryClaudeSDK JSON_parse path_join cwd_throws command options ws spawn_throws
              events w).2 in
  match Query.result q with
  | Running => terminals (sent (Query.ws q)) = terminals (sent ws)
  | Returned =>
      exists id isNewSession,
        terminals (sent (Query.ws q)) =
        terminals (sent ws) ++ [ClaudeComplete id 0 isNewSession]
  | Threw message =>
      terminals (sent (Query.ws q)) = terminals (sent ws) ++ [ClaudeError message]
  end.
Proof.
  intros q. subst q. unfold queryClaudeSDK.
  assert (ended_once (sent ws)
            (queryClaudeSDK_begin path_join cwd_throws command options ws spawn_throws w).2)
    as Hbegin.
  { destruct spawn_throws as [message|].
    - unfold queryClaudeSDK_begin.
      destruct (handleImages _ _ _ _ _) as [w0 staged].
      unfold ended_once, catch_path. simpl. by rewrite terminals_snoc.
    - destruct (queryClaudeSDK_begin_spawned command options ws w)
        as (w1 & staged & key & now & -> & _). by split. }
  assert (forall st, ended_once (sent ws) st.2 ->
                     ended_once (sent ws) (foldl (deliver JSON_parse) st events).2)
    as Hfold.
  { induction events as [|ev events IH]; intros st H; [done|].
    simpl. apply IH. by apply deliver_ended_once. }
  specialize (Hfold _ Hbegin). unfold ended_once in Hfold.
  destruct (Query.result _); [by destruct Hfold|done..].
Qed.

(** ** The disk over a request *)

Lemma handleImages_none (command : string) (images : option (list Image))
  (cwd : option string) (w : World) :
  default [] images = [] ->
  handleImages path_join cwd_throws command images cwd w =
    (w, {| Staged.modifiedCommand := command; Staged.tempImagePaths := [];
           Staged.tempDir := None |}).
Proof. by destruct images as [[|image imgs]|]. Qed.

Lemma queryClaudeSDK_begin_disk (command : string) (options : Options) (ws : Sink)
  (spawn_throws : option string) (w : World) :
  let staged := handleImages path_join cwd_throws command (images options) (cwd options) w in
  let st := queryClaudeSDK_begin path_join cwd_throws command options ws spawn_throws w in
  Query.tempImagePaths st.2 = Staged.tempImagePaths staged.2
  /\ Query.tempDir st.2 = Staged.tempDir staged.2
  /\ disk st.1 =
       match spawn_throws with
       | Some _ =>
           cleanupTempFiles (Some (Staged.tempImagePaths staged.2))
             (Staged.tempDir staged.2) (disk staged.1)
       | None => disk staged.1
       end.
Proof.
  unfold queryClaudeSDK_begin.
  destruct (handleImages _ _ _ _ _) as [w0 staged]. simpl.
  destruct spawn_throws as [message|].
  - unfold catch_path, cleanup_request. simpl.
    destruct (sessionId options) as [[|c id]|]; done.
  - destruct (sessionId options) as [[|c id]|]; done.
Qed.

(** An event leaves the disk alone, or runs the cleanup of the request. *)
Lemma deliver_disk (st : World * Query.t) (ev : proc_event) :
  disk (deliver JSON_parse st ev).1 = disk st.1
  \/ disk (deliver JSON_parse st ev).1 =
       cleanupTempFiles (Some (Query.tempImagePaths st.2)) (Query.tempDir st.2)
         (disk st.1).
Proof.
  unfold deliver. destruct (Query.claudeProcess st.2); [|by left].
  assert (forall st1 : World * Query.t,
    disk st1.1 = disk st.1 -> same_request st.2 st1.2 ->
    disk (resume st1).1 = disk st.1
    \/ disk (resume st1).1 =
         cleanupTempFiles (Some (Query.tempImagePaths st.2)) (Query.tempDir st.2)
           (disk st.1)) as Hres.
  { intros [w1 q1] Hd (_ & _ & Hp & Ht & _). simpl in *.
    unfold resume, success_path, catch_path, cleanup_request.
    destruct (Query.result q1), (Query.settled q1); simpl; auto.
    - right. by rewrite Hp, Ht, Hd.
    - right. rewrite Hp, Ht.
      destruct (Query.capturedSessionId q1) as [id|]; [|by rewrite Hd].
      destruct (truthy id); by rewrite <- Hd. }
  destruct ev as [line|chunk|code|message]; apply Hres.
  - by destruct (on_line_control line st) as (_ & _ & _ & _ & -> & _).
  - apply on_line_control.
  - by destruct (on_stderr_quiet chunk st) as (_ & _ & _ & _ & _ & ->).
  - apply on_stderr_quiet.
  - destruct st as [w q]. unfold on_close. simpl.
    by destruct (if opt_truthy _ then _ else _), code as [[| |]|].
  - apply on_close_quiet.
  - by destruct (on_error_quiet message st) as (_ & _ & _ & _ & ->).
  - apply on_error_quiet.
Qed.

(** X4: a request without attachments makes no call to the file system
    and leaves the disk as it was, from its start to its end, whatever its
    process does and whether or not [spawn] throws. *)
Theorem no_attachment_no_disk_call (command : string) (options : Options)
  (ws : Sink) (spawn_throws : option string) (events : list proc_event) (w : World) :
  default [] (images options) = [] ->
  disk (queryClaudeSDK JSON_parse path_join cwd_throws command options ws spawn_throws
          events w).1 = disk w.
Proof.
  intros Hno. unfold queryClaudeSDK.
  destruct (queryClaudeSDK_begin_disk command options ws spawn_throws w)
    as (Hp & _ & Hd).
  rewrite (handleImages_none command _ _ w Hno) in Hp, Hd. simpl in Hp, Hd.
  assert (disk (queryClaudeSDK_begin path_join cwd_throws command options ws spawn_throws w).1
          = disk w) as Hd0 by (rewrite Hd; by destruct spawn_throws).
  clear Hd. revert Hp Hd0.
  generalize (queryClaudeSDK_begin path_join cwd_throws command options ws spawn_throws w).
  induction events as [|ev events IH]; intros st Hp Hd; [done|].
  simpl. apply IH.
  - by destruct (deliver_same_request st ev) as (_ & _ & -> & _).
  - destruct (deliver_disk st ev) as [->| ->]; [done|]. by rewrite Hp.
Qed.

(** ** When [spawn] throws *)

Lemma foldl_deliver_no_process (events : list proc_event) (st : World * Query.t) :
  Query.claudeProcess st.2 = None -> foldl (deliver JSON_parse) st events = st.
Proof.
  intros Hp. induction events as [|ev events IH]; [done|].
  simpl. unfold deliver at 2. by rewrite Hp.
Qed.

(** X9: when [spawn] itself throws, nothing is registered and no process
    object is made; the error event is sent and the request throws the same
    error.  The catch block still deletes the registry entry under the
    caller's session id if there is one, although this request never
    registered it; without a caller's id the registry is left as it
    was. *)
Theorem spawn_throw_registers_nothing (command : string) (options : Options)
  (ws : Sink) (message : string) (events : list proc_event) (w : World) :
  let st := queryClaudeSDK JSON_parse path_join cwd_throws command options ws (Some message)
              events w in
  Query.result st.2 = Threw message
  /\ sent (Query.ws st.2) = sent ws ++ [ClaudeError message]
  /\ bound (Query.ws st.2) = bound ws
  /\ children st.1 = children w
  /\ store st.1 = store w
  /\ activeSessions st.1 =
       (if str_truthy (sessionId options)
        then delete (JString (default "" (sessionId options))) (activeSessions w)
        else activeSessions w).
Proof.
  intros st. subst st. unfold queryClaudeSDK.
  pose proof (handleImages_frame command (images options) (cwd options) w) as Hf.
  rewrite foldl_deliver_no_process;
    unfold queryClaudeSDK_begin;
    destruct (handleImages _ _ _ _ _) as [w0 staged];
    unfold catch_path, cleanup_request; simpl; [|done].
  simpl in Hf. destruct Hf as (Ha & Hs & Hc & _).
  destruct (sessionId options) as [[|c id]|]; simpl; rewrite ?Ha, ?Hs, ?Hc; done.
Qed.

(** ** The registry over a request *)

Lemma rekey_only (m : gmap json nat) (p id : json) (session : nat) :
  m !! p = Some session -> one_key session m ->
  forall k, rekey p id m !! k = Some session <-> k = id.
Proof.
  intros Hp Hone k. unfold rekey, rekey_steps. rewrite Hp. simpl.
  rewrite lookup_insert_Some. split.
  - intros [[-> _]|[_ Hk]]; [done|].
    apply lookup_delete_Some in Hk as [Hne Hk]. destruct Hne. by apply (Hone p k).
  - intros ->. by left.
Qed.

(** A line leaves the world as it is, or captures an id and rekeys. *)
Lemma on_line_registry (line : string) (st : World * Query.t) (p : json) :
  Query.processSessionId st.2 = Some p ->
  let st' := on_line JSON_parse line st in
  (st'.1 = st.1 /\ Query.capturedSessionId st'.2 = Query.capturedSessionId st.2)
  \/ (opt_truthy (Query.capturedSessionId st.2) = false
      /\ exists id, truthy id = true
                    /\ Query.capturedSessionId st'.2 = Some id
                    /\ st'.1 = with_activeSessions (rekey p id (activeSessions st.1)) st.1).
Proof.
  destruct st as [w q]. simpl. intros Hp. unfold on_line, send_text.
  destruct (is_blank line); [by left|].
  destruct (JSON_parse line) as [message|]; [|by left].
  destruct (session_id_of message) as [session_id|]; [|by left].
  destruct (opt_truthy session_id && negb (opt_truthy (Query.capturedSessionId q)))
    eqn:Hc; [|by left].
  apply andb_prop in Hc as [Hs Hc]. apply negb_true_iff in Hc.
  destruct session_id as [id|]; [|discriminate Hs]. simpl in Hs.
  right. split; [done|]. exists id. simpl. rewrite Hp.
  by destruct (negb (str_truthy _) && negb _).
Qed.

(** While the process only writes, the session of the request stays bound
    under exactly one key, the one the request will remove at the end. *)
Lemma foldl_deliver_outputs_registered (events : list proc_event)
  (st : World * Query.t) (ref : nat) :
  waiting st.2 -> Forall is_output events ->
  (exists key, registry_key st.2 = Some key
               /\ forall k, activeSessions st.1 !! k = Some ref <-> k = key) ->
  let st' := foldl (deliver JSON_parse) st events in
  exists key, registry_key st'.2 = Some key
              /\ forall k, activeSessions st'.1 !! k = Some ref <-> k = key.
Proof.
  revert st. induction events as [|ev events IH]; intros st Hw Hall Hreg; [done|].
  apply Forall_cons in Hall as [Hev Hall]. simpl.
  destruct (foldl_deliver_outputs [ev] st Hw) as (Hw1 & _); [by constructor|].
  apply IH; [exact Hw1|exact Hall|]. clear IH Hw1 Hall.
  destruct Hreg as (key & Hkey & Honly).
  destruct ev as [line|chunk| |]; try done.
  - destruct (deliver_line_waiting line st Hw) as [-> _].
    unfold registry_key in *.
    destruct (opt_truthy (Query.capturedSessionId st.2)) eqn:Ht.
    + destruct (on_line_captured line st Ht) as (-> & Hc & _).
      exists key. by rewrite Hc, Ht.
    + destruct (on_line_registry line st key Hkey) as [[-> Hc]|(_ & id & Hid & Hc & ->)].
      * destruct (on_line_control line st) as ((_ & _ & _ & _ & Hp & _) & _).
        exists key. by rewrite Hc, Ht, Hp.
      * exists id. rewrite Hc. simpl. rewrite Hid. split; [done|].
        apply rekey_only; [by apply Honly|].
        intros k1 k2 H1 H2. apply Honly in H1, H2. congruence.
  - destruct Hw as (Hr & Hs & [pid Hp]). unfold deliver. rewrite Hp.
    destruct (on_stderr_quiet chunk st) as (_ & Hc & (_ & _ & _ & _ & Hp' & _) & Hs' & Hr' & Hw').
    rewrite resume_waiting by congruence. rewrite Hw'.
    exists key. unfold registry_key in *. by rewrite Hc, Hp'.
Qed.

(** X7: in a registry whose references all point into the store, a
    request whose process was spawned, wrote whatever it wrote and then
    closed, with any code or on a signal, leaves no entry behind: its
    session object is still in the store but no key of the registry is
    bound to it any more, whether the entry was still under its first key
    or had been rekeyed. *)
Theorem closed_request_leaves_no_entry (command : string) (options : Options)
  (ws : Sink) (events : list proc_event) (code : option Z) (w : World) :
  well_formed w -> Forall is_output events ->
  let st := queryClaudeSDK JSON_parse path_join cwd_throws command options ws None
              (events ++ [Close code]) w in
  (exists session, store st.1 !! length (store w) = Some session
                   /\ Session.process session = length (children w))
  /\ (forall k, activeSessions st.1 !! k <> Some (length (store w)))
  /\ Query.result st.2 <> Running.
Proof.
  intros Hwf Hout st. subst st. unfold queryClaudeSDK.
  destruct (queryClaudeSDK_begin_spawned command options ws w)
    as (w1 & staged & key & now & -> & _ & Hsup & Hnew & Hreg & Hstore).
  set (q1 := started command options ws staged key (length (children w))).
  assert (waiting q1) as Hw1 by (by repeat split; eauto).
  assert (registry_key q1 = Some key) as Hkey.
  { unfold registry_key. subst q1. simpl.
    destruct (sessionId options) as [[|c id]|] eqn:Hid; simpl; try done.
    by rewrite (Hsup (String c id) eq_refl). }
  assert (forall k, activeSessions w1 !! k = Some (length (store w)) <-> k = key)
    as Honly.
  { intros k. rewrite Hreg, lookup_insert_Some. split.
    - intros [[-> _]|[_ Hk]]; [done|]. apply Hwf in Hk. lia.
    - intros ->. by left. }
  rewrite foldl_app. simpl.
  destruct (foldl_deliver_outputs events (w1, q1) Hw1 Hout) as (Hw2 & _ & _ & _ & Hst2).
  destruct (foldl_deliver_outputs_registered events (w1, q1) (length (store w))
              Hw1 Hout) as (key2 & Hkey2 & Honly2); [by exists key|].
  pose proof (deliver_store (foldl (deliver JSON_parse) (w1, q1) events) (Close code))
    as Hst3.
  destruct (foldl (deliver JSON_parse) (w1, q1) events) as [w2 q2].
  simpl in Hw2, Hst2, Hkey2, Honly2, Hst3.
  assert (activeSessions (deliver JSON_parse (w2, q2) (Close code)).1
          = delete key2 (activeSessions w2)
          /\ Query.result (deliver JSON_parse (w2, q2) (Close code)).2 <> Running)
    as [Hm Hres].
  { destruct (decide (code = Some 0)) as [->|Hcode].
    - destruct (deliver_close_zero w2 q2 Hw2) as (Hr & _ & _ & Hm & _).
      rewrite Hkey2 in Hm. by rewrite Hr.
    - destruct (deliver_close_failure w2 q2 code Hw2 Hcode) as (Hr & _ & _ & Hm & _).
      rewrite Hkey2 in Hm. by rewrite Hr. }
  split; [|split; [|done]].
  - rewrite Hst3, Hst2, Hstore. eexists. split.
    + rewrite lookup_app_r by done. by rewrite Nat.sub_diag.
    + done.
  - intros k Hk. rewrite Hm in Hk. apply lookup_delete_Some in Hk as [Hne Hk].
    apply Honly2 in Hk. congruence.
Qed.

Lemma write_images_denied (tempDir : string) (imgs : list Image) :
  forall index paths d,
  denied (write_images path_join tempDir index imgs paths d).1.1 = denied d.
Proof.
  induction imgs as [|image rest IH]; intros index paths d; simpl; [done|].
  destruct (data image) as [uri|]; [|done].
  destruct (match_data_uri uri) as [[mimeType base64Data]|]; [|apply IH].
  unfold writeFile. destruct (denied d _) eqn:Hd; [done|].
  by rewrite IH.
Qed.

Lemma handleImages_denied (command : string) (images : option (list Image))
  (cwd : option string) (w : World) :
  denied (disk (handleImages path_join cwd_throws command images cwd w).1) = denied (disk w).
Proof.
  unfold handleImages. destruct images as [[|image imgs]|]; try done.
  unfold handleImages_try. destruct (negb (str_truthy cwd) && cwd_throws); [done|].
  unfold Date_now, mkdir. cbv beta iota zeta. cbn [disk].
  destruct (denied (disk w) _); [done|].
  match goal with
  | |- context [write_images ?j ?t ?i ?l ?p ?d] =>
      pose proof (write_images_denied t l i p d) as Hd;
      destruct (write_images j t i l p d) as [[d' ps] [|]]
  end; exact Hd.
Qed.

Lemma cleanupTempFiles_removes (paths : list string) (dir : option string) (d : Disk) :
  (forall p, denied d p = false) ->
  let d' := cleanupTempFiles (Some paths) dir d in
  (forall p, p ∈ paths -> p ∉ (fst <$> files d'))
  /\ (paths <> [] -> forall name, dir = Some name -> name <> "" -> name ∉ dirs d').
Proof.
  intros Hden d'. subst d'. destruct paths as [|p0 l].
  { split; [|done]. intros p Hp. by apply elem_of_nil in Hp. }
  split.
  - intros p Hp Hin. apply list_elem_of_fmap in Hin as ([name payload] & Heq & Hin).
    simpl in Heq. subst name. rewrite cleanupTempFiles_files in Hin.
    apply list_elem_of_filter in Hin as [Hs _].
    unfold spared in Hs. apply andb_True in Hs as [Hs _].
    apply Is_true_true in Hs. rewrite forallb_forall in Hs.
    specialize (Hs p). rewrite <- list_elem_of_In in Hs. specialize (Hs Hp).
    simpl in Hs. by rewrite Hden, String.eqb_refl in Hs.
  - intros _ name -> Hname Hin. rewrite cleanupTempFiles_dirs in Hin.
    apply list_elem_of_filter in Hin as [Hs _].
    unfold spared_by_rm, under in Hs. destruct name as [|a name]; [done|].
    change (str_truthy (Some (String a name))) with true in Hs.
    change (default "" (Some (String a name))) with (String a name) in Hs.
    by rewrite Hden, String.eqb_refl in Hs.
Qed.

(** X8: on a disk that refuses nothing, when the process of a request was
    spawned, wrote whatever it wrote and then closed, with any code or on a
    signal, every file staged for the request is gone from the disk, and so
    is the directory made for them provided at least one file was staged.
    The calls made after staging are those of one cleanup. *)
Theorem closed_request_deletes_its_files (command : string) (options : Options)
  (ws : Sink) (events : list proc_event) (code : option Z) (w : World) :
  (forall p, denied (disk w) p = false) -> Forall is_output events ->
  let staged := handleImages path_join cwd_throws command (images options) (cwd options) w in
  let st := queryClaudeSDK JSON_parse path_join cwd_throws command options ws None
              (events ++ [Close code]) w in
  (forall p, p ∈ Staged.tempImagePaths staged.2 -> p ∉ (fst <$> files (disk st.1)))
  /\ (Staged.tempImagePaths staged.2 <> [] ->
      forall dir, Staged.tempDir staged.2 = Some dir -> dir <> "" ->
      dir ∉ dirs (disk st.1))
  /\ fs_calls (disk st.1) =
       fs_calls (disk staged.1)
       ++ cleanup_calls (Staged.tempImagePaths staged.2) (Staged.tempDir staged.2).
Proof.
  intros Hden Hout staged st. subst st. unfold queryClaudeSDK.
  destruct (queryClaudeSDK_begin_disk command options ws None w) as (Hp & Ht & Hd).
  fold staged in Hp, Ht, Hd.
  pose proof (handleImages_denied command (images options) (cwd options) w) as Hden'.
  fold staged in Hden'.
  destruct (queryClaudeSDK_begin_spawned command options ws w)
    as (w1 & staged' & key & now & E & _).
  rewrite E in *. simpl in Hp, Ht, Hd.
  set (q1 := started command options ws staged' key (length (children w))) in *.
  assert (waiting q1) as Hw1 by (by repeat split; eauto).
  rewrite foldl_app. simpl.
  destruct (foldl_deliver_outputs events (w1, q1) Hw1 Hout)
    as (Hw2 & (_ & _ & Hp2 & Ht2 & _) & _ & Hd2 & _).
  destruct (foldl (deliver JSON_parse) (w1, q1) events) as [w2 q2].
  simpl in Hw2, Hp2, Ht2, Hd2.
  assert (disk (deliver JSON_parse (w2, q2) (Close code)).1 =
          cleanupTempFiles (Some (Staged.tempImagePaths staged.2))
            (Staged.tempDir staged.2) (disk staged.1)) as ->.
  { rewrite <- Hp, <- Ht, <- Hd, <- Hp2, <- Ht2, <- Hd2.
    destruct (decide (code = Some 0)) as [->|Hcode].
    - by destruct (deliver_close_zero w2 q2 Hw2) as (_ & _ & _ & _ & ->).
    - by destruct (deliver_close_failure w2 q2 code Hw2 Hcode) as (_ & _ & _ & _ & ->). }
  assert (forall p, denied (disk staged.1) p = false) as Hden2
    by (intros p; by rewrite Hden').
  destruct (cleanupTempFiles_removes (Staged.tempImagePaths staged.2)
              (Staged.tempDir staged.2) (disk staged.1) Hden2) as [Hfiles Hdir].
  split; [exact Hfiles|]. split; [exact Hdir|].
  apply cleanupTempFiles_fs_calls.
Qed.

(** ** More on abort *)

(** Everything an abort does to the world when the id has an entry. *)
Lemma abort_effects (id : json) (w : World) (ref : nat) (session : Session.t) :
  get_session id w = Some (ref, session) ->
  let w' := (abortClaudeSDKSession id w).1 in
  let pid := Session.process session in
  (abortClaudeSDKSession id w).2 = true
  /\ activeSessions w' = delete id (activeSessions w)
  /\ store w' = <[ref := Session.with_status aborted session]> (store w)
  /\ disk w' = cleanupTempFiles (Some (Session.tempImagePaths session))
                 (Session.tempDir session) (disk w)
  /\ children w' =
       match children w !! pid with
       | Some c => if killed c then children w
                   else <[pid := kill SIGTERM c]> (children w)
       | None => children w
       end
  /\ timers w' =
       match children w !! pid with
       | Some c => if killed c then timers w else timers w ++ [pid]
       | None => timers w
       end.
Proof.
  intros Hget. unfold abortClaudeSDKSession, abort_after_await, abort_until_await.
  rewrite Hget.
  destruct (children w !! Session.process session) as [c|]; [|done].
  by destruct (killed c).
Qed.

Lemma get_session_deleted (id : json) (w w' : World) :
  activeSessions w' = delete id (activeSessions w) -> get_session id w' = None.
Proof. intros H. unfold get_session. by rewrite H, lookup_delete_eq. Qed.

(** X10: aborting again an id that was just aborted finds nothing: the
    second call returns [false] and changes nothing, file system calls
    included, whatever the first call found. *)
Theorem abort_twice (id : json) (w : World) :
  abortClaudeSDKSession id (abortClaudeSDKSession id w).1 =
  ((abortClaudeSDKSession id w).1, false).
Proof.
  destruct (get_session id w) as [[ref session]|] eqn:Hget.
  - destruct (abort_effects id w ref session Hget) as (_ & Hm & _).
    apply get_session_deleted in Hm.
    unfold abortClaudeSDKSession at 1. by rewrite Hm.
  - assert (abortClaudeSDKSession id w = (w, false)) as ->
      by (unfold abortClaudeSDKSession; by rewrite Hget).
    simpl. unfold abortClaudeSDKSession. by rewrite Hget.
Qed.

(** X11: aborting one session leaves every other session as it was: a
    key bound to another session object keeps its entry and its object,
    with the same status, so it is reported active or not as before. *)
Theorem abort_leaves_other_sessions (id k : json) (w : World) :
  (forall ref, activeSessions w !! id = Some ref -> activeSessions w !! k <> Some ref) ->
  let w' := (abortClaudeSDKSession id w).1 in
  get_session k w' = get_session k w
  /\ isClaudeSDKSessionActive k w' = isClaudeSDKSessionActive k w.
Proof.
  intros Hother w'. subst w'.
  assert (get_session k (abortClaudeSDKSession id w).1 = get_session k w) as Hsame.
  { destruct (get_session id w) as [[ref session]|] eqn:Hget.
    - destruct (abort_effects id w ref session Hget) as (_ & Hm & Hst & _).
      apply get_session_Some in Hget as [Hreg _]. specialize (Hother ref Hreg).
      assert (k <> id) as Hne by (intros ->; done).
      unfold get_session. rewrite Hm, Hst, lookup_delete_ne by done.
      destruct (activeSessions w !! k) as [r|]; [|done].
      rewrite list_lookup_insert_ne; [done|]. intros ->. done.
    - unfold abortClaudeSDKSession. by rewrite Hget. }
  split; [done|]. unfold isClaudeSDKSessionActive. by rewrite Hsame.
Qed.

Lemma registry_key_started (command : string) (options : Options) (ws : Sink)
  (staged : Staged.t) (key : json) (pid : nat) :
  (forall id, sessionId options = Some id -> id <> "" -> key = JString id) ->
  registry_key (started command options ws staged key pid) = Some key.
Proof.
  intros Hsup. unfold registry_key. simpl.
  destruct (sessionId options) as [[|c id]|] eqn:Hid; simpl; try done.
  by rewrite (Hsup (String c id) eq_refl).
Qed.

(** While the process only writes, the session of the request is bound
    under the key the request expects it under, and once that key is no
    longer the first one the first one is free. *)
Lemma foldl_deliver_outputs_bound (events : list proc_event)
  (st : World * Query.t) (ref : nat) (key0 : json) :
  waiting st.2 -> Forall is_output events ->
  Query.processSessionId st.2 = Some key0 ->
  (exists key, registry_key st.2 = Some key
               /\ activeSessions st.1 !! key = Some ref
               /\ (key <> key0 -> activeSessions st.1 !! key0 = None)) ->
  let st' := foldl (deliver JSON_parse) st events in
  exists key, registry_key st'.2 = Some key
              /\ activeSessions st'.1 !! key = Some ref
              /\ (key <> key0 -> activeSessions st'.1 !! key0 = None).
Proof.
  revert st. induction events as [|ev events IH]; intros st Hw Hall Hp0 Hreg; [done|].
  apply Forall_cons in Hall as [Hev Hall]. simpl.
  destruct (foldl_deliver_outputs [ev] st Hw) as (Hw1 & Hsame1 & _); [by constructor|].
  apply IH; [exact Hw1|exact Hall| |]; clear IH Hall.
  { simpl in Hsame1. destruct Hsame1 as (_ & _ & _ & _ & -> & _). exact Hp0. }
  clear Hw1 Hsame1. destruct Hreg as (key & Hkey & Hbound & Hfree).
  destruct ev as [line|chunk| |]; try done.
  - destruct (deliver_line_waiting line st Hw) as [-> _].
    unfold registry_key in *.
    destruct (opt_truthy (Query.capturedSessionId st.2)) eqn:Ht.
    + destruct (on_line_captured line st Ht) as (-> & Hc & _).
      exists key. by rewrite Hc, Ht.
    + assert (key = key0) as -> by congruence.
      destruct (on_line_registry line st key0 Hp0) as [[-> Hc]|(_ & id & Hid & Hc & ->)].
      * destruct (on_line_control line st) as ((_ & _ & _ & _ & Hp & _) & _).
        exists key0. by rewrite Hc, Ht, Hp.
      * exists id. rewrite Hc. simpl. rewrite Hid. split; [done|].
        unfold rekey, rekey_steps. rewrite Hbound. simpl.
        split; [by rewrite lookup_insert_eq|].
        intros Hne. rewrite lookup_insert_ne by done. by rewrite lookup_delete_eq.
  - destruct Hw as (Hr & Hs & [pid Hp]). unfold deliver. rewrite Hp.
    destruct (on_stderr_quiet chunk st)
      as (_ & Hc & (_ & _ & _ & _ & Hp' & _) & Hs' & Hr' & Hw').
    rewrite resume_waiting by congruence. rewrite Hw'.
    exists key. unfold registry_key in *. by rewrite Hc, Hp'.
Qed.

(** X12: from the moment its process is spawned, and for as long as the
    process only writes, a request is reported active under the key it
    expects its entry under: the caller's session id or, without one, the
    provisional key until a line carries a session id and that id from then
    on.  Once the entry has moved to that id the request is no longer
    reported active under the provisional key.  It is no longer reported
    active under its key once it has been aborted under it, or once its
    process has closed, with any code or on a signal. *)
Theorem active_from_start_to_abort_or_close (command : string) (options : Options)
  (ws : Sink) (events : list proc_event) (w : World) :
  Forall is_output events ->
  let st0 := queryClaudeSDK_begin path_join cwd_throws command options ws None w in
  let st := queryClaudeSDK JSON_parse path_join cwd_throws command options ws None
              events w in
  exists key0 key,
    Query.processSessionId st0.2 = Some key0
    /\ Query.processSessionId st.2 = Some key0
    /\ isClaudeSDKSessionActive key0 st0.1 = true
    /\ registry_key st.2 = Some key
    /\ (opt_truthy (Query.capturedSessionId st.2) = false -> key = key0)
    /\ isClaudeSDKSessionActive key st.1 = true
    /\ (key <> key0 -> isClaudeSDKSessionActive key0 st.1 = false)
    /\ (abortClaudeSDKSession key st.1).2 = true
    /\ isClaudeSDKSessionActive key (abortClaudeSDKSession key st.1).1 = false
    /\ (forall code,
          isClaudeSDKSessionActive key (deliver JSON_parse st (Close code)).1 = false).
Proof.
  intros Hout st0 st. subst st0 st. unfold queryClaudeSDK.
  destruct (queryClaudeSDK_begin_spawned command options ws w)
    as (w1 & staged & key0 & now & -> & _ & Hsup & _ & Hreg & Hstore).
  set (q1 := started command options ws staged key0 (length (children w))).
  set (session := {| Session.process := length (children w);
                     Session.startTime := now; Session.status := active;
                     Session.tempImagePaths := Staged.tempImagePaths staged;
                     Session.tempDir := Staged.tempDir staged |}) in *.
  assert (waiting q1) as Hw1 by (by repeat split; eauto).
  pose proof (registry_key_started command options ws staged key0
                (length (children w)) Hsup) as Hkey0. fold q1 in Hkey0.
  assert (store w1 !! length (store w) = Some session) as Hobj.
  { rewrite Hstore, lookup_app_r by done. by rewrite Nat.sub_diag. }
  assert (activeSessions w1 !! key0 = Some (length (store w))) as Hbound0
    by (by rewrite Hreg, lookup_insert_eq).
  destruct (foldl_deliver_outputs events (w1, q1) Hw1 Hout)
    as (Hw2 & Hsame & _ & _ & Hst2).
  destruct (foldl_deliver_outputs_bound events (w1, q1) (length (store w)) key0
              Hw1 Hout eq_refl) as (key & Hkey & Hbound & Hfree);
    [by exists key0|].
  destruct (foldl (deliver JSON_parse) (w1, q1) events) as [w2 q2].
  simpl in Hw2, Hsame, Hst2, Hkey, Hbound, Hfree.
  assert (get_session key w2 = Some (length (store w), session)) as Hget
    by (apply get_session_Some; by rewrite Hst2).
  exists key0, key. cbn [fst snd].
  split; [done|].
  split; [by destruct Hsame as (_ & _ & _ & _ & -> & _)|].
  split.
  { unfold isClaudeSDKSessionActive.
    by rewrite (proj2 (get_session_Some key0 w1 _ session) (conj Hbound0 Hobj)). }
  split; [done|].
  split.
  { intros Hno. unfold registry_key in Hkey. rewrite Hno in Hkey.
    destruct Hsame as (_ & _ & _ & _ & Hp & _). rewrite Hp in Hkey. simpl in Hkey.
    congruence. }
  split; [unfold isClaudeSDKSessionActive; by rewrite Hget|].
  split.
  { intros Hne. unfold isClaudeSDKSessionActive, get_session.
    by rewrite (Hfree Hne). }
  destruct (abort_effects key w2 _ session Hget) as (Hret & Hm & _).
  split; [done|].
  split; [unfold isClaudeSDKSessionActive; by rewrite (get_session_deleted _ _ _ Hm)|].
  intros code.
  assert (activeSessions (deliver JSON_parse (w2, q2) (Close code)).1
          = delete key (activeSessions w2)) as Hm2.
  { destruct (decide (code = Some 0)) as [->|Hcode].
    - destruct (deliver_close_zero w2 q2 Hw2) as (_ & _ & _ & Hm2 & _).
      by rewrite Hkey in Hm2.
    - destruct (deliver_close_failure w2 q2 code Hw2 Hcode) as (_ & _ & _ & Hm2 & _).
      by rewrite Hkey in Hm2. }
  unfold isClaudeSDKSessionActive. by rewrite (get_session_deleted _ _ _ Hm2).
Qed.

Lemma with_children_same (w : World) : with_children (children w) w = w.
Proof. by destruct w. Qed.

(** X13: an abort that finds a live process not yet signalled sends it
    SIGTERM, once, marks it killed and schedules the forced kill.  When
    the scheduled callback then runs, it sends nothing: either SIGTERM was
    delivered, and the [killed] flag it tests is set, or the process had
    ended already, and no signal can reach it.  In the state the abort
    leaves, the forced kill is thus without effect. *)
Theorem forced_kill_sends_nothing (id : json) (w : World) (ref : nat)
  (session : Session.t) :
  get_session id w = Some (ref, session) ->
  let w' := (abortClaudeSDKSession id w).1 in
  let pid := Session.process session in
  (forall c, children w !! pid = Some c -> killed c = false -> ended c = false ->
     exists c', children w' !! pid = Some c'
                /\ killed c' = true
                /\ signals c' = signals c ++ [SIGTERM]
                /\ timers w' = timers w ++ [pid])
  /\ force_kill pid w' = w'.
Proof.
  intros Hget w' pid. subst w' pid.
  destruct (abort_effects id w ref session Hget) as (_ & _ & _ & _ & Hc & Ht).
  split.
  - intros c Hpid Hk He. rewrite Hpid, Hk in Hc, Ht. rewrite Hc, Ht.
    eexists. split; [apply list_lookup_insert_eq; by eapply lookup_lt_Some|].
    unfold kill. rewrite He. done.
  - unfold force_kill.
    set (w' := (abortClaudeSDKSession id w).1) in *.
    destruct (children w !! Session.process session) as [c|] eqn:Hpid;
      [|by rewrite Hc, Hpid].
    destruct (killed c) eqn:Hk; [by rewrite Hc, Hpid, Hk|].
    assert (children w' !! Session.process session = Some (kill SIGTERM c)) as Hnew.
    { rewrite Hc. apply list_lookup_insert_eq. by eapply lookup_lt_Some. }
    rewrite Hnew. unfold kill in *. destruct (ended c) eqn:He; [|done].
    rewrite Hk, He, (list_insert_id _ _ _ Hnew). apply with_children_same.
Qed.

(** ** The process that is spawned *)

Lemma handleImages_prompt (command : string) (images : option (list Image))
  (cwd : option string) (w : World) :
  let staged := handleImages path_join cwd_throws command images cwd w in
  Staged.modifiedCommand staged.2 = command
  \/ Staged.modifiedCommand staged.2 =
       command +:+ imageNote (Staged.tempImagePaths staged.2).
Proof.
  unfold handleImages. destruct images as [[|image imgs]|]; try by left.
  unfold handleImages_try.
  destruct (negb (str_truthy cwd) && cwd_throws); [by left|].
  unfold Date_now. cbv beta iota zeta.
  destruct (mkdir _ _) as [d [|]]; [|by left].
  destruct (write_images _ _ _ _ _ _) as [[d' ps] [|]]; [|by left].
  simpl. destruct ps; [by left|]. destruct (is_blank command); simpl; auto.
Qed.

(** X14: the process of a request is started with the arguments built
    from the staged prompt: its last argument is the caller's prompt,
    followed by the note listing the staged files when there is one.  It
    runs in the caller's working directory, or in the server's own when the
    caller names none, and the session registered for the request points
    to this process and holds the staged paths and directory, so that an
    abort cleans exactly what the request staged. *)
Theorem spawned_with_staged_prompt (command : string) (options : Options)
  (ws : Sink) (w : World) :
  let staged := handleImages path_join cwd_throws command (images options) (cwd options) w in
  let st := queryClaudeSDK_begin path_join cwd_throws command options ws None w in
  exists child session key,
    children st.1 = children w ++ [child]
    /\ Query.claudeProcess st.2 = Some (length (children w))
    /\ spawn_args child = buildCliArgs (Staged.modifiedCommand staged.2) options
    /\ last (spawn_args child) = Some (Staged.modifiedCommand staged.2)
    /\ (Staged.modifiedCommand staged.2 = command
        \/ Staged.modifiedCommand staged.2 =
             command +:+ imageNote (Staged.tempImagePaths staged.2))
    /\ spawn_cwd child =
         (if str_truthy (cwd options) then default "" (cwd options)
          else process_cwd w)
    /\ killed child = false /\ signals child = []
    /\ Query.processSessionId st.2 = Some key
    /\ get_session key st.1 = Some (length (store w), session)
    /\ Session.process session = length (children w)
    /\ Session.status session = active
    /\ Session.tempImagePaths session = Staged.tempImagePaths staged.2
    /\ Session.tempDir session = Staged.tempDir staged.2.
Proof.
  intros staged st. subst st.
  pose proof (handleImages_prompt command (images options) (cwd options) w) as Hprompt.
  pose proof (handleImages_frame command (images options) (cwd options) w) as Hf.
  fold staged in Hprompt, Hf. simpl in Hf.
  destruct Hf as (Ha & Hs & Hc & _ & Hcwd & _).
  unfold queryClaudeSDK_begin. fold staged.
  destruct staged as [w0 r]. simpl in *.
  destruct (sessionId options) as [[|c id]|] eqn:Hid; simpl;
    rewrite ?Hc, ?Hs, ?Ha, ?Hcwd; eexists _, _, _.
  all: split; [reflexivity|]; split; [reflexivity|]; split; [reflexivity|].
  all: split; [unfold buildCliArgs; apply last_snoc|].
  all: split; [exact Hprompt|]; split; [reflexivity|].
  all: split; [reflexivity|]; split; [reflexivity|]; split; [reflexivity|].
  all: split;
    [ apply get_session_Some; simpl; rewrite ?Hs, lookup_insert_eq;
      (split; [done|]); rewrite lookup_app_r by done; rewrite Nat.sub_diag;
      reflexivity
    | by repeat split ].
Qed.

(** A request for a new session without attachment reads the clock twice,
    for its provisional key and for its start time. *)
Lemma queryClaudeSDK_begin_provisional (command : string) (options : Options)
  (ws : Sink) (w : World) :
  str_truthy (sessionId options) = false ->
  default [] (images options) = [] ->
  let key := JString ("pending_" +:+ pretty (clock w (clock_reads w))) in
  exists w1 staged,
    queryClaudeSDK_begin path_join cwd_throws command options ws None w =
      (w1, started command options ws staged key (length (children w)))
    /\ get_session key w1 =
         Some (length (store w),
               {| Session.process := length (children w);
                  Session.startTime := clock w (S (clock_reads w));
                  Session.status := active;
                  Session.tempImagePaths := []; Session.tempDir := None |})
    /\ length (store w1) = S (length (store w))
    /\ length (children w1) = S (length (children w))
    /\ clock w1 = clock w
    /\ clock_reads w1 = S (S (clock_reads w)).
Proof.
  intros Hno Himg key. subst key. unfold queryClaudeSDK_begin.
  rewrite (handleImages_none command _ (cwd options) w Himg).
  destruct (sessionId options) as [[|c id]|] eqn:Hid; try discriminate Hno; simpl;
    eexists _, {| Staged.modifiedCommand := command; Staged.tempImagePaths := [];
                  Staged.tempDir := None |};
    (split; [unfold started; rewrite Hid; reflexivity|]);
    (split; [apply get_session_Some; simpl; rewrite lookup_insert_eq;
             (split; [done|]); rewrite lookup_app_r by done;
             by rewrite Nat.sub_diag|]);
    simpl; rewrite !length_app; simpl; repeat split; lia.
Qed.

(** X15: the provisional key has the resolution of the clock.  When two
    requests for a new session, neither with an attachment, read the same
    time for their keys, they register under one key: the entry of the
    second replaces that of the first, so an abort under this key reaches
    the process of the second request only, and when the process of the
    first request closes the key is removed although the second request is
    still running. *)
Theorem same_clock_reading_shares_key (command1 command2 : string)
  (options1 options2 : Options) (ws1 ws2 : Sink) (w : World) :
  str_truthy (sessionId options1) = false ->
  str_truthy (sessionId options2) = false ->
  default [] (images options1) = [] ->
  default [] (images options2) = [] ->
  clock w (S (S (clock_reads w))) = clock w (clock_reads w) ->
  let st1 := queryClaudeSDK_begin path_join cwd_throws command1 options1 ws1 None w in
  let st2 := queryClaudeSDK_begin path_join cwd_throws command2 options2 ws2 None st1.1 in
  exists key session,
    Query.processSessionId st1.2 = Some key
    /\ Query.processSessionId st2.2 = Some key
    /\ Query.claudeProcess st1.2 = Some (length (children w))
    /\ Query.claudeProcess st2.2 = Some (S (length (children w)))
    /\ get_session key st2.1 = Some (S (length (store w)), session)
    /\ Session.process session = S (length (children w))
    /\ Query.result st2.2 = Running
    /\ (forall code,
          isClaudeSDKSessionActive key
            (deliver JSON_parse (st2.1, st1.2) (Close code)).1 = false).
Proof.
  intros Hno1 Hno2 Himg1 Himg2 Hclock st1 st2. subst st2 st1.
  destruct (queryClaudeSDK_begin_provisional command1 options1 ws1 w Hno1 Himg1)
    as (w1 & staged1 & -> & _ & Hs1 & Hc1 & Hck & Hr1).
  simpl.
  destruct (queryClaudeSDK_begin_provisional command2 options2 ws2 w1 Hno2 Himg2)
    as (w2 & staged2 & -> & Hget & _).
  cbn [fst snd].
  rewrite Hck, Hr1, Hclock, Hs1, Hc1 in Hget. rewrite Hck, Hr1, Hclock, Hc1.
  eexists _, _. split; [reflexivity|]. split; [reflexivity|].
  split; [reflexivity|]. split; [reflexivity|].
  split; [exact Hget|]. split; [reflexivity|]. split; [reflexivity|].
  intros code.
  set (key := JString ("pending_" +:+ pretty (clock w (clock_reads w)))).
  set (q1 := started command1 options1 ws1 staged1 key (length (children w))).
  assert (waiting q1) as Hw1 by (by repeat split; eauto).
  assert (registry_key q1 = Some key) as Hkey.
  { apply registry_key_started. intros id Hid Hne.
    rewrite Hid in Hno1. by destruct id. }
  assert (activeSessions (deliver JSON_parse (w2, q1) (Close code)).1
          = delete key (activeSessions w2)) as Hm.
  { destruct (decide (code = Some 0)) as [->|Hcode].
    - destruct (deliver_close_zero w2 q1 Hw1) as (_ & _ & _ & Hm & _).
      by rewrite Hkey in Hm.
    - destruct (deliver_close_failure w2 q1 code Hw1 Hcode) as (_ & _ & _ & Hm & _).
      by rewrite Hkey in Hm. }
  unfold isClaudeSDKSessionActive. by rewrite (get_session_deleted _ _ _ Hm).
Qed.

(** ** The catch path *)








End Properties.

(** * The claims on concrete runs *)

(** A request for a new session whose process could not be started.  The
    ['error'] comes before any line, the catch block runs, and as no id
    was captured it deletes nothing: until ['close'] arrives the entry is
    still in the registry under the provisional key.  The close handler
    then removes it. *)
Lemma failed_spawn_entry_until_close :
  Query.result failed_spawn.2 = Threw "spawn claude ENOENT"
  /\ sent (Query.ws failed_spawn.2) = [ClaudeError "spawn claude ENOENT"]
  /\ Query.capturedSessionId failed_spawn.2 = None
  /\ Query.processSessionId failed_spawn.2 = Some provisional_key
  /\ activeSessions failed_spawn.1 !! provisional_key = Some 0%nat
  /\ activeSessions failed_spawn_closed.1 !! provisional_key = None
  /\ sent (Query.ws failed_spawn_closed.2) = [ClaudeError "spawn claude ENOENT"]
  /\ Query.result failed_spawn_closed.2 = Threw "spawn claude ENOENT".
Proof. vm_compute. repeat split; reflexivity. Qed.

(** C2, as stated, fails: the write of the second attachment is refused,
    an error is thrown in the staging block, and what comes back is the
    original prompt with the path already written and the directory, not
    an empty list and a null directory. *)
Lemma handleImages_error_keeps_paths_and_dir :
  (handleImages_try plain_join false "describe" [png; jpeg] None
     (world_denying "/app/.tmp/images/1700000000000/image_1.jpeg")).2 = None
  /\ Staged.modifiedCommand second_write_refused.2 = "describe"
  /\ Staged.tempImagePaths second_write_refused.2 =
       ["/app/.tmp/images/1700000000000/image_0.png"]
  /\ Staged.tempDir second_write_refused.2 = Some "/app/.tmp/images/1700000000000".
Proof. vm_compute. repeat split; reflexivity. Qed.

(** When the error comes before the directory is chosen, nothing has been
    done and the list is empty and the directory null. *)
Lemma handleImages_error_before_directory :
  Staged.modifiedCommand staging_without_cwd.2 = "describe"
  /\ Staged.tempImagePaths staging_without_cwd.2 = []
  /\ Staged.tempDir staging_without_cwd.2 = None
  /\ fs_calls (disk staging_without_cwd.1) = [].
Proof. vm_compute. repeat split; reflexivity. Qed.

(** C3, as stated, fails: with an empty list of paths the directory is
    present and yet it is not removed, no call being made at all. *)
Lemma cleanupTempFiles_empty_list_keeps_directory :
  Staged.tempImagePaths nothing_staged.2 = []
  /\ Staged.tempDir nothing_staged.2 = Some "/app/.tmp/images/1700000000000"
  /\ dirs (disk nothing_staged.1) = ["/app/.tmp/images/1700000000000"]
  /\ nothing_staged_cleaned = disk nothing_staged.1
  /\ dirs nothing_staged_cleaned = ["/app/.tmp/images/1700000000000"]
  /\ fs_calls nothing_staged_cleaned = [FsMkdir "/app/.tmp/images/1700000000000"].
Proof. vm_compute. repeat split; reflexivity. Qed.


(** The same when the process closes after the abort has returned: the
    entry is gone by then, and the exit path still runs the cleanup again,
    sends an error event and throws. *)
Lemma exit_after_abort_cleans_again :
  after_abort.2 = true
  /\ activeSessions after_abort.1 !! JString "s1" = None
  /\ fs_calls (disk after_abort.1) =
       [FsMkdir "/app/.tmp/images/1700000000000";
        FsWriteFile "/app/.tmp/images/1700000000000/image_0.png" "iVBORw0KGgo=";
        FsUnlink "/app/.tmp/images/1700000000000/image_0.png";
        FsRm "/app/.tmp/images/1700000000000"]
  /\ fs_calls (disk exit_after_abort.1) =
       [FsMkdir "/app/.tmp/images/1700000000000";
        FsWriteFile "/app/.tmp/images/1700000000000/image_0.png" "iVBORw0KGgo=";
        FsUnlink "/app/.tmp/images/1700000000000/image_0.png";
        FsRm "/app/.tmp/images/1700000000000";
        FsUnlink "/app/.tmp/images/1700000000000/image_0.png";
        FsRm "/app/.tmp/images/1700000000000"]
  /\ sent (Query.ws exit_after_abort.2) = [ClaudeError "Claude exited with code null: "]
  /\ Query.result exit_after_abort.2 = Threw "Claude exited with code null: ".
Proof. vm_compute. repeat split; reflexivity. Qed.

(** * The theorems with hypotheses, each at one concrete input *)

Lemma handleImages_error_degrades_witness :
  let w := world_denying "/app/.tmp/images/1700000000000/image_1.jpeg" in
  let r := handleImages_try plain_join false "describe" [png; jpeg] None w in
  [png; jpeg] <> []
  /\ r = (r.1.1.1, r.1.1.2, r.1.2, None)
  /\ (handleImages plain_join false "describe" (Some [png; jpeg]) None w =
        (r.1.1.1, {| Staged.modifiedCommand := "describe";
                     Staged.tempImagePaths := r.1.1.2;
                     Staged.tempDir := r.1.2 |})
      /\ (length r.1.1.2 < length [png; jpeg])%nat
      /\ (forall p, p ∈ r.1.1.2 -> p ∈ (fst <$> files (disk r.1.1.1)))
      /\ match r.1.2 with
         | None => str_truthy None = false /\ false = true /\ r.1.1.2 = []
                   /\ r.1.1.1 = w
         | Some d =>
             d = plain_join [if str_truthy None then default "" None
                             else process_cwd w;
                             ".tmp"; "images"; pretty (clock w (clock_reads w))]
         end).
Proof.
  intros w r.
  assert ([png; jpeg] <> []) as Hne by discriminate.
  assert (r.2 = None) as Hnone by (vm_compute; reflexivity).
  assert (r = (r.1.1.1, r.1.1.2, r.1.2, None)) as Hr.
  { rewrite <- Hnone. clear Hnone. clearbody r. by destruct r as [[[? ?] ?] ?]. }
  split; [exact Hne|]. split; [exact Hr|].
  exact (handleImages_error_degrades plain_join false "describe" [png; jpeg] None w
           r.1.1.1 r.1.1.2 r.1.2 Hne Hr).
Defined.

Lemma nonzero_exit_is_reported_witness :
  Forall is_output [Line line_system; Stderr "bo"; Stderr "om"]
  /\ 2 <> 0
  /\ let q := (queryClaudeSDK read_json plain_join false "hello" no_options listening_sink
                 None ([Line line_system; Stderr "bo"; Stderr "om"]
                       ++ [Close (Some 2)]) fresh_world).2 in
     exists message,
       Query.result q = Threw message
       /\ contains message (pretty 2)
       /\ contains message (stderr_text [Line line_system; Stderr "bo"; Stderr "om"])
       /\ last (sent (Query.ws q)) = Some (ClaudeError message).
Proof.
  assert (Forall is_output [Line line_system; Stderr "bo"; Stderr "om"]) as Hout
    by (repeat constructor).
  assert (2 <> 0) as Hcode by lia.
  split; [exact Hout|]. split; [exact Hcode|].
  exact (nonzero_exit_is_reported read_json plain_join false "hello" no_options
           listening_sink _ 2 fresh_world Hout Hcode).
Defined.

Lemma one_key_singleton (k : json) (session : nat) :
  one_key session (<[k := session]> ∅).
Proof.
  intros k1 k2 H1 H2.
  apply lookup_insert_Some in H1 as [[<- _]|[_ H1]]; [|by rewrite lookup_empty in H1].
  apply lookup_insert_Some in H2 as [[<- _]|[_ H2]]; [|by rewrite lookup_empty in H2].
  done.
Qed.

Lemma new_request_one_key : one_key 0 (activeSessions new_request.1).
Proof.
  unfold new_request.
  destruct (queryClaudeSDK_begin_spawned plain_join false "hello" no_options listening_sink
              fresh_world) as (w1 & staged & key & now & -> & _ & _ & _ & Hreg & _).
  simpl. rewrite Hreg. apply one_key_singleton.
Qed.

Lemma capture_rekeys_entry_witness :
  let w := new_request.1 in
  let q := new_request.2 in
  let id := JString "abc" in
  is_blank line_system = false
  /\ read_json line_system = Some message_system
  /\ session_id_of message_system = Some (Some id)
  /\ truthy id = true
  /\ opt_truthy (Query.capturedSessionId q) = false
  /\ Query.processSessionId q = Some provisional_key
  /\ activeSessions w !! provisional_key = Some 0%nat
  /\ one_key 0 (activeSessions w)
  /\ let st' := on_line read_json line_system (w, q) in
     Query.capturedSessionId st'.2 = Some id
     /\ (forall k, activeSessions st'.1 !! k = Some 0%nat <-> k = id)
     /\ (id <> provisional_key -> activeSessions st'.1 !! provisional_key = None)
     /\ (forall k, k <> provisional_key -> k <> id ->
         activeSessions st'.1 !! k = activeSessions w !! k)
     /\ store st'.1 = store w
     /\ rekey_steps provisional_key id (activeSessions w) =
          [delete provisional_key (activeSessions w); activeSessions st'.1]
     /\ Forall (one_key 0)
          (activeSessions w :: rekey_steps provisional_key id (activeSessions w)).
Proof.
  intros w q id.
  assert (is_blank line_system = false) as H1 by reflexivity.
  assert (read_json line_system = Some message_system) as H2
    by (vm_compute; reflexivity).
  assert (session_id_of message_system = Some (Some id)) as H3 by reflexivity.
  assert (truthy id = true) as H4 by reflexivity.
  assert (opt_truthy (Query.capturedSessionId q) = false) as H5
    by (vm_compute; reflexivity).
  assert (Query.processSessionId q = Some provisional_key) as H6
    by (vm_compute; reflexivity).
  assert (activeSessions w !! provisional_key = Some 0%nat) as H7
    by (vm_compute; reflexivity).
  assert (one_key 0 (activeSessions w)) as H8.
  { exact new_request_one_key. }
  do 8 (split; [assumption|]).
  exact (capture_rekeys_entry read_json line_system w q message_system id
           provisional_key 0%nat H1 H2 H3 H4 H5 H6 H7 H8).
Defined.

Lemma sample_stream_events_witness :
  read_json line_system = Some message_system
  /\ read_json line_result = Some message_result
  /\ str_truthy (sessionId no_options) = false
  /\ "hello" <> ""
  /\ sent listening_sink = []
  /\ let q := (queryClaudeSDK read_json plain_join false "hello" no_options listening_sink
                 None [Line line_system; Line line_result; Close (Some 0)]
                 fresh_world).2 in
     sent (Query.ws q) =
       [SessionCreated (JString "abc");
        ClaudeResponse message_system;
        ClaudeResponse message_result;
        ClaudeComplete (Some (JString "abc")) 0 true]
     /\ Query.result q = Returned.
Proof.
  assert (read_json line_system = Some message_system) as H1
    by (vm_compute; reflexivity).
  assert (read_json line_result = Some message_result) as H2
    by (vm_compute; reflexivity).
  assert (str_truthy (sessionId no_options) = false) as H3 by reflexivity.
  assert ("hello" <> "") as H4 by discriminate.
  assert (sent listening_sink = []) as H5 by reflexivity.
  do 5 (split; [assumption|]).
  exact (sample_stream_events read_json plain_join false "hello" no_options listening_sink
           fresh_world H1 H2 H3 H4 H5).
Defined.

Lemma supplied_id_keeps_its_key_witness :
  let options := resume_options "mine" in
  let events := [Line line_system; Line line_result; Close (Some 0)] in
  sessionId options = Some "mine"
  /\ "mine" <> ""
  /\ let st1 := queryClaudeSDK_begin plain_join false "hello" options listening_sink None
                  fresh_world in
     let st' := queryClaudeSDK read_json plain_join false "hello" options listening_sink None
                  events fresh_world in
     Query.processSessionId st1.2 = Some (JString "mine")
     /\ activeSessions st1.1 =
          <[JString "mine" := length (store fresh_world)]> (activeSessions fresh_world)
     /\ Query.processSessionId st'.2 = Some (JString "mine")
     /\ Query.capturedSessionId st'.2 = Some (JString "mine")
     /\ (forall k, k <> JString "mine" ->
         activeSessions st'.1 !! k = activeSessions st1.1 !! k)
     /\ (Forall is_output events -> activeSessions st'.1 = activeSessions st1.1)
     /\ bound (Query.ws st'.2) = bound listening_sink
     /\ (exists new, sent (Query.ws st'.2) = sent listening_sink ++ new
                     /\ Forall (resumed_event (JString "mine")) new)
     /\ (forall output, events = output ++ [Close (Some 0)] ->
         Forall is_output output ->
         last (sent (Query.ws st'.2)) =
           Some (ClaudeComplete (Some (JString "mine")) 0 false)
         /\ activeSessions st'.1 = delete (JString "mine") (activeSessions st1.1)).
Proof.
  intros options events.
  assert (sessionId options = Some "mine") as H1 by reflexivity.
  assert ("mine" <> "") as H2 by discriminate.
  do 2 (split; [assumption|]).
  exact (supplied_id_keeps_its_key read_json plain_join false "hello" options listening_sink
           events fresh_world "mine" H1 H2).
Defined.



(** ** The further properties with hypotheses, each at one concrete input *)

Lemma handleImages_stages_all_witness :
  let imgs := [png; not_a_data_uri; jpeg] in
  let w := fresh_world in
  imgs <> []
  /\ Forall (fun image => is_Some (data image)) imgs
  /\ (forall p, denied (disk w) p = false)
  /\ (str_truthy None = false -> false = false)
  /\ (let staged := handleImages plain_join false "describe" (Some imgs) None w in
      let tempDir :=
        plain_join [if str_truthy None then default "" None else process_cwd w;
                    ".tmp"; "images"; pretty (clock w (clock_reads w))] in
      let paths := (fun name => plain_join [tempDir; name]) <$> staged_names 0 imgs in
      Staged.tempDir staged.2 = Some tempDir
      /\ Staged.tempImagePaths staged.2 = paths
      /\ Staged.modifiedCommand staged.2 =
           (if bool_decide (paths = []) || is_blank "describe" then "describe"
            else "describe" +:+ imageNote paths)
      /\ tempDir ∈ dirs (disk staged.1)
      /\ (forall p, p ∈ paths -> p ∈ (fst <$> files (disk staged.1)))).
Proof.
  intros imgs w.
  assert (imgs <> []) as Hne by discriminate.
  assert (Forall (fun image => is_Some (data image)) imgs) as Hall
    by (repeat constructor; eexists; reflexivity).
  assert (forall p, denied (disk w) p = false) as Hden by reflexivity.
  assert (str_truthy None = false -> false = false) as Hcwd by reflexivity.
  split; [exact Hne|]. split; [exact Hall|]. split; [exact Hden|].
  split; [exact Hcwd|].
  exact (handleImages_stages_all plain_join false "describe" imgs None w
           Hne Hall Hden Hcwd).
Defined.

Lemma no_attachment_no_disk_call_witness :
  default [] (images no_options) = []
  /\ disk (queryClaudeSDK read_json plain_join false "hello" no_options listening_sink None
             [Line line_system; Line line_result; Close (Some 0)] fresh_world).1
     = disk fresh_world.
Proof.
  assert (default [] (images no_options) = []) as Hno by reflexivity.
  split; [exact Hno|].
  exact (no_attachment_no_disk_call read_json plain_join false "hello" no_options
           listening_sink None _ fresh_world Hno).
Defined.

Lemma fresh_world_well_formed : well_formed fresh_world.
Proof. intros k ref H. simpl in H. by rewrite lookup_empty in H. Qed.

Lemma closed_request_leaves_no_entry_witness :
  well_formed fresh_world
  /\ Forall is_output [Line line_system; Stderr "warn"; Line line_result]
  /\ (let st := queryClaudeSDK read_json plain_join false "hello" no_options listening_sink
                  None ([Line line_system; Stderr "warn"; Line line_result]
                        ++ [Close (Some 0)]) fresh_world in
      (exists session, store st.1 !! length (store fresh_world) = Some session
                       /\ Session.process session = length (children fresh_world))
      /\ (forall k, activeSessions st.1 !! k <> Some (length (store fresh_world)))
      /\ Query.result st.2 <> Running).
Proof.
  assert (Forall is_output [Line line_system; Stderr "warn"; Line line_result])
    as Hout by (repeat constructor).
  split; [exact fresh_world_well_formed|]. split; [exact Hout|].
  exact (closed_request_leaves_no_entry read_json plain_join false "hello" no_options
           listening_sink _ (Some 0) fresh_world fresh_world_well_formed Hout).
Defined.

Lemma closed_request_deletes_its_files_witness :
  let options := options_with_images None [png; jpeg] in
  let events := [Line line_system; Line line_result] in
  (forall p, denied (disk fresh_world) p = false)
  /\ Forall is_output events
  /\ (let staged := handleImages plain_join false "describe" (images options) (cwd options)
                      fresh_world in
      let st := queryClaudeSDK read_json plain_join false "describe" options listening_sink
                  None (events ++ [Close None]) fresh_world in
      (forall p, p ∈ Staged.tempImagePaths staged.2 ->
                 p ∉ (fst <$> files (disk st.1)))
      /\ (Staged.tempImagePaths staged.2 <> [] ->
          forall dir, Staged.tempDir staged.2 = Some dir -> dir <> "" ->
          dir ∉ dirs (disk st.1))
      /\ fs_calls (disk st.1) =
           fs_calls (disk staged.1)
           ++ cleanup_calls (Staged.tempImagePaths staged.2)
                (Staged.tempDir staged.2)).
Proof.
  intros options events.
  assert (forall p, denied (disk fresh_world) p = false) as Hden by reflexivity.
  assert (Forall is_output events) as Hout by (repeat constructor).
  split; [exact Hden|]. split; [exact Hout|].
  exact (closed_request_deletes_its_files read_json plain_join false "describe" options
           listening_sink events None fresh_world Hden Hout).
Defined.

Lemma two_requests_keys :
  activeSessions two_requests.1 !! JString "s1" = Some 0%nat
  /\ activeSessions two_requests.1 !! JString "s2" = Some 1%nat.
Proof. split; vm_compute; reflexivity. Qed.

Lemma abort_leaves_other_sessions_witness :
  let w := two_requests.1 in
  let w' := (abortClaudeSDKSession (JString "s1") w).1 in
  (forall ref, activeSessions w !! JString "s1" = Some ref ->
               activeSessions w !! JString "s2" <> Some ref)
  /\ get_session (JString "s2") w' = get_session (JString "s2") w
  /\ isClaudeSDKSessionActive (JString "s2") w' =
     isClaudeSDKSessionActive (JString "s2") w.
Proof.
  intros w w'.
  assert (forall ref, activeSessions w !! JString "s1" = Some ref ->
                      activeSessions w !! JString "s2" <> Some ref) as Hother.
  { intros ref H1 H2. destruct two_requests_keys as [K1 K2].
    fold w in K1, K2. congruence. }
  split; [exact Hother|].
  exact (abort_leaves_other_sessions (JString "s1") (JString "s2") w Hother).
Defined.

Lemma forced_kill_sends_nothing_witness :
  let w := aborted_request.1 in
  let w' := (abortClaudeSDKSession (JString "s1") w).1 in
  let pid := Session.process aborted_session in
  get_session (JString "s1") w = Some (0%nat, aborted_session)
  /\ (forall c, children w !! pid = Some c -> killed c = false -> ended c = false ->
        exists c', children w' !! pid = Some c'
                   /\ killed c' = true
                   /\ signals c' = signals c ++ [SIGTERM]
                   /\ timers w' = timers w ++ [pid])
  /\ force_kill pid w' = w'.
Proof.
  intros w w' pid.
  assert (get_session (JString "s1") w = Some (0%nat, aborted_session)) as Hget
    by (vm_compute; reflexivity).
  split; [exact Hget|].
  exact (forced_kill_sends_nothing (JString "s1") w 0%nat aborted_session Hget).
Defined.

Lemma active_from_start_to_abort_or_close_witness :
  let events := [Line line_system; Stderr "warn"; Line line_result] in
  Forall is_output events
  /\ (let st0 := queryClaudeSDK_begin plain_join false "hello" no_options
                   listening_sink None fresh_world in
      let st := queryClaudeSDK read_json plain_join false "hello" no_options
                  listening_sink None events fresh_world in
      exists key0 key,
        Query.processSessionId st0.2 = Some key0
        /\ Query.processSessionId st.2 = Some key0
        /\ isClaudeSDKSessionActive key0 st0.1 = true
        /\ registry_key st.2 = Some key
        /\ (opt_truthy (Query.capturedSessionId st.2) = false -> key = key0)
        /\ isClaudeSDKSessionActive key st.1 = true
        /\ (key <> key0 -> isClaudeSDKSessionActive key0 st.1 = false)
        /\ (abortClaudeSDKSession key st.1).2 = true
        /\ isClaudeSDKSessionActive key (abortClaudeSDKSession key st.1).1 = false
        /\ (forall code,
              isClaudeSDKSessionActive key (deliver read_json st (Close code)).1
              = false)).
Proof.
  intros events.
  assert (Forall is_output events) as Hout by (repeat constructor).
  split; [exact Hout|].
  exact (active_from_start_to_abort_or_close read_json plain_join false "hello"
           no_options listening_sink events fresh_world Hout).
Defined.

Lemma same_clock_reading_shares_key_witness :
  let w := stalled_world in
  str_truthy (sessionId no_options) = false
  /\ default [] (images no_options) = []
  /\ clock w (S (S (clock_reads w))) = clock w (clock_reads w)
  /\ (let st1 := queryClaudeSDK_begin plain_join false "first" no_options listening_sink
                   None w in
      let st2 := queryClaudeSDK_begin plain_join false "second" no_options listening_sink
                   None st1.1 in
      exists key session,
        Query.processSessionId st1.2 = Some key
        /\ Query.processSessionId st2.2 = Some key
        /\ Query.claudeProcess st1.2 = Some (length (children w))
        /\ Query.claudeProcess st2.2 = Some (S (length (children w)))
        /\ get_session key st2.1 = Some (S (length (store w)), session)
        /\ Session.process session = S (length (children w))
        /\ Query.result st2.2 = Running
        /\ (forall code,
              isClaudeSDKSessionActive key
                (deliver read_json (st2.1, st1.2) (Close code)).1 = false)).
Proof.
  intros w.
  assert (str_truthy (sessionId no_options) = false) as Hno by reflexivity.
  assert (default [] (images no_options) = []) as Himg by reflexivity.
  assert (clock w (S (S (clock_reads w))) = clock w (clock_reads w)) as Hclock
    by reflexivity.
  split; [exact Hno|]. split; [exact Himg|]. split; [exact Hclock|].
  exact (same_clock_reading_shares_key read_json plain_join false "first" "second"
           no_options no_options listening_sink listening_sink w
           Hno Hno Himg Himg Hclock).
Defined.
